(** * Server connector of the host orchestrator's intercept page

    A shallow embedding of
    [host/frontend/host-orchestrator/intercept/js/server_connector.js]:
    the two implementations of the Server Connector Interface
    ([WebsocketConnector] and [PollingConnector]) as event-driven state
    machines.  JavaScript runs each handler to completion, so a transition of
    the machine is one run of the code between two suspension points: a call
    of a public method, an inbound websocket message, an expired timer, or
    the arrival of the response of a [fetch].

    Conventions of the model:
    - JSON values are the type [json]; a JavaScript object is a finite map
      from property names to values, and reading an absent property gives
      [JUndefined].  Numbers are the integers [Z]: the code only counts
      messages and doubles a delay that never exceeds 60000, which is exact
      in double precision (below 2^53).
    - A promise is an index in the store [promises]; settling a promise that
      is already settled has no effect, as in JavaScript.
    - What the code does to its environment is recorded in order: console
      output, frames written to the websocket and calls of the
      device-message callback in [effects]; every [fetch] in [requests];
      every [setTimeout] in [timers].
    - The callback registered with [onDeviceMsg] is the caller's code.  It is
      identified by a number, and a call of it is the effect [Call]; the
      body of the callback is outside the model: it returns normally and
      does not call back into the connector.
    - Inputs have the shape the server's endpoints give them: a websocket
      message is a JSON object, and the messages endpoint answers with an
      array of JSON objects.  A failed request is an input of its own.
    - Two awaits in a row on one response ([fetch] and then [json()]) are one
      suspension: the code reads no field between them.  Code that follows
      an [await] of a value that is already there ([requestDevice] of the
      polling connector once the configuration is stored) is a microtask: it
      runs before any timer, message or response is handled, and the model
      runs it in the transition of the call.  Calls the page makes after
      that call in one synchronous block run before the microtask; the model
      lists the [fetch] of the microtask before theirs in [requests], and
      differs from the code in nothing else.
    - [to_string] prints a number with all its digits, as JavaScript does for
      the integers a double holds exactly (up to 2^53 in magnitude);
      [prints_exactly] tells the values for which it is the text the code
      builds. *)

From stdpp Require Import base list strings gmap.
From Stdlib Require Import ZArith Lia DecimalString.

Open Scope Z_scope.

(** ** JSON values and the JavaScript operations the code applies to them *)

#[warnings="-register-all"]
Inductive json : Type :=
  | JUndefined
  | JNull
  | JBool (b : bool)
  | JNum (z : Z)
  | JStr (s : string)
  | JArr (l : list json)
  | JObj (o : gmap string json).

(** A JavaScript object literal or a parsed JSON object. *)
Abbreviation jobject := (gmap string json).

(** [o.k]: the value of property [k], [undefined] when [o] has none. *)
Definition prop (o : jobject) (k : string) : json :=
  default JUndefined (o !! k).

(** The condition of [if (v)]: [undefined], [null], [false], [0] and the
    empty string are falsy, every other value is truthy. *)
Definition truthy (v : json) : bool :=
  match v with
  | JUndefined | JNull => false
  | JBool b => b
  | JNum z => negb (z =? 0)
  | JStr s => negb (String.eqb s "")
  | JArr _ | JObj _ => true
  end.

(** [v === undefined] *)
Definition is_undefined (v : json) : bool :=
  match v with JUndefined => true | _ => false end.

(** Decimal rendering of an integer, as in [`${n}`]: the digits JavaScript
    prints for an integer up to 2^53 in magnitude. *)
Definition number_to_string (z : Z) : string :=
  NilZero.string_of_int (Z.to_int z).

(** String conversion, as applied by [+] on a string and by template
    literals.  An array joins its elements with commas, [null] and
    [undefined] elements giving the empty string. *)
Fixpoint to_string (v : json) : string :=
  match v with
  | JUndefined => "undefined"
  | JNull => "null"
  | JBool true => "true"
  | JBool false => "false"
  | JNum z => number_to_string z
  | JStr s => s
  | JArr l =>
      String.concat ","
        (map (fun x => match x with
                       | JUndefined | JNull => ""
                       | _ => to_string x
                       end) l)
  | JObj _ => "[object Object]"
  end.


(** ** Thrown values, promises and effects *)

(** What a [throw] or a rejected promise carries. *)
Inductive thrown : Type :=
  | Value (v : json)              (* a value passed to [reject] or thrown *)
  | TypeError (what : string)     (* e.g. calling [undefined] *)
  | InvalidStateError             (* [send] on a socket that is not open yet *)
  | FetchError (what : string).   (* a failed [fetch] or [json()] *)

Inductive promise_state : Type :=
  | Pending
  | Fulfilled (v : json)
  | Rejected (e : thrown).

(** [resolve] and [reject] of a promise only act while it is pending. *)
Definition settle (p : nat) (s : promise_state) (ps : list promise_state)
  : list promise_state :=
  match ps !! p with
  | Some Pending => <[p := s]> ps
  | _ => ps
  end.

(** The registered device-message callback: the initial arrow function that
    only logs, or a function given by the caller. *)
Inductive callback : Type :=
  | NoListener
  | Listener (id : nat).

Inductive effect : Type :=
  | ConsoleError (args : list json)
  | WsSend (frame : jobject)            (* [websocket.send(JSON.stringify(frame))] *)
  | Call (cb : callback) (payload : json). (* [#onDeviceMsgCb] is called *)

(** [cb(payload)]: one call of the function held in [#onDeviceMsgCb]; the
    initial function then logs an error and drops the payload. *)
Definition invoke (cb : callback) (payload : json) : list effect :=
  Call cb payload ::
  match cb with
  | NoListener =>
      [ConsoleError [JStr "Received device message without registered listener"]]
  | Listener _ => []
  end.

(** The calls of the device-message callback among the effects, in order. *)
Fixpoint calls (es : list effect) : list (callback * json) :=
  match es with
  | [] => []
  | Call cb payload :: es => (cb, payload) :: calls es
  | _ :: es => calls es
  end.

(** How a handler ends. *)
Inductive completion : Type :=
  | Normal
  | Throw (e : thrown).

(** [location] of the page. *)
Record Location : Type := mkLocation { protocol : string; host : string }.

Definition httpUrl (location : Location) (path : string) : string :=
  protocol location +:+ "//" +:+ host location +:+ "/" +:+ path.

Definition websocketUrl (location : Location) (path : string) : string :=
  (if String.eqb (protocol location) "http:" then "ws://" else "wss://")
    +:+ host location +:+ "/" +:+ path.

(** ** WebsocketConnector *)

Module WebsocketConnector.

(** [readyState] of the socket. [connectWs] hands the socket over from its
    [onopen] handler, so a connector starts with [OPEN]. *)
Inductive ReadyState : Type := CONNECTING | OPEN | CLOSING | CLOSED.

(** The object [#futures].  The code reads and writes three fixed
    properties of it; the two continuations are the closures
    [(device) => resolve(device)] and [(error) => reject(error)] of the
    promise made by [requestDevice], represented by that promise.
    [None] is an absent property. *)
Record Futures : Type := mkFutures {
  onDeviceAvailable : option nat;
  onConnectionFailed : option nat;
  infraConfig : option json;
}.

Record fields : Type := mkFields {
  futures : Futures;
  onDeviceMsgCb : callback;
}.

Record World : Type := mkWorld {
  this : fields;
  readyState : ReadyState;            (* of [#websocket] *)
  promises : list promise_state;
  effects : list effect;
}.

Definition set_futures (f : Futures) (w : World) : World :=
  mkWorld (mkFields f (onDeviceMsgCb (this w)))
          (readyState w) (promises w) (effects w).

Definition set_promises (ps : list promise_state) (w : World) : World :=
  mkWorld (this w) (readyState w) ps (effects w).

Definition emit (es : list effect) (w : World) : World :=
  mkWorld (this w) (readyState w) (promises w) (effects w ++ es).

(** [new WebsocketConnector(ws)] on an open socket. *)
Definition constructor : World :=
  mkWorld (mkFields (mkFutures None None None) NoListener) OPEN [] [].

Definition onDeviceMsg (cb : callback) (w : World) : World :=
  mkWorld (mkFields (futures (this w)) cb)
          (readyState w) (promises w) (effects w).

(** [async #wsSendJson(obj)]: the state of the promise it returns.  [send]
    throws only while the socket is connecting; on a closing or closed
    socket the frame is dropped without an exception. *)
Definition wsSendJson (obj : jobject) (w : World) : World * promise_state :=
  match readyState w with
  | CONNECTING => (w, Rejected InvalidStateError)
  | OPEN => (emit [WsSend obj] w, Fulfilled JUndefined)
  | CLOSING | CLOSED => (w, Fulfilled JUndefined)
  end.

(** [async requestDevice(deviceId)]: the new world and the promise. *)
Definition requestDevice (deviceId : json) (w : World) : World * nat :=
  let p := length (promises w) in
  let w := set_promises (promises w ++ [Pending]) w in
  let w := set_futures
             (mkFutures (Some p) (Some p) (infraConfig (futures (this w)))) w in
  let w := fst (wsSendJson {[ "message_type" := JStr "connect";
                              "device_id" := deviceId ]} w) in
  (w, p).

(** [async sendToDevice(msg)] *)
Definition sendToDevice (msg : json) (w : World) : World * nat :=
  let p := length (promises w) in
  let '(w, r) := wsSendJson {[ "message_type" := JStr "forward";
                               "payload" := msg ]} w in
  (set_promises (promises w ++ [r]) w, p).

(** The [switch (type)] of the dispatcher compares with [===]. *)
Inductive message_case : Type :=
  | case_config | case_device_info | case_device_msg | case_default.

Definition switch (type : json) : message_case :=
  match type with
  | JStr s =>
      if String.eqb s "config" then case_config
      else if String.eqb s "device_info" then case_device_info
      else if String.eqb s "device_msg" then case_device_msg
      else case_default
  | _ => case_default
  end.

(** [this.#futures.onConnectionFailed(error)] *)
Definition call_onConnectionFailed (error : json) (w : World)
  : World * completion :=
  match onConnectionFailed (futures (this w)) with
  | Some p =>
      (set_promises (settle p (Rejected (Value error)) (promises w)) w, Normal)
  | None =>
      (w, Throw (TypeError "this.#futures.onConnectionFailed is not a function"))
  end.

(** [#onWebsocketMessage(message)] *)
Definition onWebsocketMessage (message : jobject) (w : World)
  : World * completion :=
  let type := prop message "message_type" in
  if truthy (prop message "error") then
    let w := emit [ConsoleError [prop message "error"]] w in
    call_onConnectionFailed (prop message "error") w
  else
    match switch type with
    | case_config =>
        let f := futures (this w) in
        (set_futures (mkFutures (onDeviceAvailable f) (onConnectionFailed f)
                                (Some (JObj message))) w, Normal)
    | case_device_info =>
        let f := futures (this w) in
        match onDeviceAvailable f with
        | Some p =>
            let device : jobject :=
              {[ "deviceInfo" := prop message "device_info";
                 "infraConfig" := default JUndefined (infraConfig f) ]} in
            let w := set_promises
                       (settle p (Fulfilled (JObj device)) (promises w)) w in
            (set_futures (mkFutures None (onConnectionFailed f) (infraConfig f)) w,
             Normal)
        | None =>
            (emit [ConsoleError [JStr "Received unsolicited device info"]] w,
             Normal)
        end
    | case_device_msg =>
        (emit (invoke (onDeviceMsgCb (this w)) (prop message "payload")) w,
         Normal)
    | case_default =>
        let w := emit [ConsoleError
                         [JStr "Unrecognized message type from server: "; type]] w in
        match call_onConnectionFailed
                (JStr ("Unrecognized message type from server: " +:+ to_string type))
                w with
        | (w, Normal) => (emit [ConsoleError [JObj message]] w, Normal)
        | (w, Throw e) => (w, Throw e)
        end
    end.

(** What the page and the server do to a connector. *)
Inductive input : Type :=
  | CallOnDeviceMsg (cb : callback)
  | CallRequestDevice (deviceId : json)
  | CallSendToDevice (msg : json)
  | Message (message : jobject).        (* [ws.onmessage], after [JSON.parse] *)

Definition step (w : World) (i : input) : World :=
  match i with
  | CallOnDeviceMsg cb => onDeviceMsg cb w
  | CallRequestDevice deviceId => fst (requestDevice deviceId w)
  | CallSendToDevice msg => fst (sendToDevice msg w)
  | Message message => fst (onWebsocketMessage message w)
  end.

Definition run (w : World) (inputs : list input) : World :=
  fold_left step inputs w.

Definition is_CallRequestDevice (i : input) : bool :=
  match i with CallRequestDevice _ => true | _ => false end.

End WebsocketConnector.

(** ** PollingConnector *)

Module PollingConnector.

(** The private fields.  [None] is [undefined]; [#config] is either
    [undefined] or the JSON value that was fetched. *)
Record fields : Type := mkFields {
  configUrl : string;
  connectUrl : string;
  forwardUrl : option string;
  messagesUrl : option string;
  config : json;
  messagesReceived : Z;
  pollerSchedule : option nat;         (* a handle returned by [setTimeout] *)
  onDeviceMsgCb : callback;
}.

Inductive method : Type := GET | POST.

(** The arguments of a call of [fetch]; [body] is the object given to
    [JSON.stringify]. *)
Record Fetch : Type := mkFetch {
  url : string;
  http_method : method;
  body : option jobject;
}.

(** What a [fetch] followed by [json()] gives back. *)
Inductive reply : Type :=
  | Failed (e : thrown)
  | Json (v : json).

(** The async function suspended on a request, with the local variables it
    still needs. *)
Inductive awaiting : Type :=
  | in_getConfig (deviceId : json) (p : nat)
      (* [#getConfig], called by the [requestDevice] whose promise is [p] *)
  | in_requestDevice (config : json) (p : nat)
      (* [requestDevice] in [await ajaxPostJson(this.#connectUrl, ...)] *)
  | in_sendToDevice (p : nat).

Record Request : Type := mkRequest {
  fetch : Fetch;
  caller : awaiting;
  response : option reply;             (* [None] while in flight *)
}.

(** A GET of [#pollMessages], made by the [pollerRoutine] closure
    [routine].  The messages endpoint answers with an array of message
    objects. *)
Record Poll : Type := mkPoll {
  poll : Fetch;
  routine : nat;
  answer : option (thrown + list jobject);
}.

(** A call [setTimeout(pollerRoutine, delay)]. *)
Record Timer : Type := mkTimer {
  delay : Z;
  expires : nat;                       (* the [pollerRoutine] closure to run *)
  armed : bool;                        (* not expired yet *)
}.

Record World : Type := mkWorld {
  location : Location;
  this : fields;
  currentPollDelay : list Z;  (* the variable of each activation of
                                 [#startPolling] that got past the guard *)
  timers : list Timer;        (* every [setTimeout], the handle is the index *)
  requests : list Request;    (* every other [fetch], in the order made *)
  polls : list Poll;          (* every [fetch] of [#pollMessages] *)
  promises : list promise_state;
  effects : list effect;
}.

Definition set_this (t : fields) (w : World) : World :=
  mkWorld (location w) t (currentPollDelay w) (timers w) (requests w)
          (polls w) (promises w) (effects w).
Definition set_currentPollDelay (ds : list Z) (w : World) : World :=
  mkWorld (location w) (this w) ds (timers w) (requests w)
          (polls w) (promises w) (effects w).
Definition set_timers (ts : list Timer) (w : World) : World :=
  mkWorld (location w) (this w) (currentPollDelay w) ts (requests w)
          (polls w) (promises w) (effects w).
Definition set_requests (rs : list Request) (w : World) : World :=
  mkWorld (location w) (this w) (currentPollDelay w) (timers w) rs
          (polls w) (promises w) (effects w).
Definition set_polls (ps : list Poll) (w : World) : World :=
  mkWorld (location w) (this w) (currentPollDelay w) (timers w) (requests w)
          ps (promises w) (effects w).
Definition set_promises (ps : list promise_state) (w : World) : World :=
  mkWorld (location w) (this w) (currentPollDelay w) (timers w) (requests w)
          (polls w) ps (effects w).
Definition emit (es : list effect) (w : World) : World :=
  mkWorld (location w) (this w) (currentPollDelay w) (timers w) (requests w)
          (polls w) (promises w) (effects w ++ es).

Definition set_urls (forward messages : string) (t : fields) : fields :=
  mkFields (configUrl t) (connectUrl t) (Some forward) (Some messages)
           (config t) (messagesReceived t) (pollerSchedule t) (onDeviceMsgCb t).
Definition set_config (c : json) (t : fields) : fields :=
  mkFields (configUrl t) (connectUrl t) (forwardUrl t) (messagesUrl t)
           c (messagesReceived t) (pollerSchedule t) (onDeviceMsgCb t).
Definition set_messagesReceived (n : Z) (t : fields) : fields :=
  mkFields (configUrl t) (connectUrl t) (forwardUrl t) (messagesUrl t)
           (config t) n (pollerSchedule t) (onDeviceMsgCb t).
Definition set_pollerSchedule (handle : nat) (t : fields) : fields :=
  mkFields (configUrl t) (connectUrl t) (forwardUrl t) (messagesUrl t)
           (config t) (messagesReceived t) (Some handle) (onDeviceMsgCb t).
Definition set_onDeviceMsgCb (cb : callback) (t : fields) : fields :=
  mkFields (configUrl t) (connectUrl t) (forwardUrl t) (messagesUrl t)
           (config t) (messagesReceived t) (pollerSchedule t) cb.

(** [new PollingConnector()] on a page at [location]. *)
Definition constructor (location : Location) : World :=
  mkWorld location
          (mkFields (httpUrl location "infra_config")
                    (httpUrl location "polled_connections")
                    None None JUndefined 0 None NoListener)
          [] [] [] [] [] [].

Definition onDeviceMsg (cb : callback) (w : World) : World :=
  set_this (set_onDeviceMsgCb cb (this w)) w.

(** A URL field used as a string: [undefined] reads "undefined". *)
Definition url_string (u : option string) : string := default "undefined" u.

Definition new_promise (w : World) : World * nat :=
  (set_promises (promises w ++ [Pending]) w, length (promises w)).

Definition settle_promise (p : nat) (s : promise_state) (w : World) : World :=
  set_promises (settle p s (promises w)) w.

(** [await fetch(...)] and [json()] of the response, in the async function
    [k]. *)
Definition await_fetch (f : Fetch) (k : awaiting) (w : World) : World :=
  set_requests (requests w ++ [mkRequest f k None]) w.

Definition ajaxPostJson (url : option string) (data : jobject) (k : awaiting)
                        (w : World) : World :=
  await_fetch (mkFetch (url_string url) POST (Some data)) k w.

(** [async #getConfig()], called by the [requestDevice] of promise [p]:
    either it returns the stored value at once, or it is suspended in the
    GET. *)
Definition getConfig (deviceId : json) (p : nat) (w : World)
  : World * option json :=
  if is_undefined (config (this w)) then
    (await_fetch (mkFetch (configUrl (this w)) GET None)
                 (in_getConfig deviceId p) w, None)
  else (w, Some (config (this w))).

(** [requestDevice] from [let config = await this.#getConfig()] on. *)
Definition requestDevice_connect (deviceId config : json) (p : nat) (w : World)
  : World :=
  ajaxPostJson (Some (connectUrl (this w))) {[ "device_id" := deviceId ]}
               (in_requestDevice config p) w.

(** [async requestDevice(deviceId)]: the new world and the promise. *)
Definition requestDevice (deviceId : json) (w : World) : World * nat :=
  let '(w, p) := new_promise w in
  match getConfig deviceId p w with
  | (w, Some config) => (requestDevice_connect deviceId config p w, p)
  | (w, None) => (w, p)
  end.

(** [async sendToDevice(msg)] *)
Definition sendToDevice (msg : json) (w : World) : World * nat :=
  let '(w, p) := new_promise w in
  (ajaxPostJson (forwardUrl (this w)) {[ "payload" := msg ]} (in_sendToDevice p) w,
   p).

(** The value of the variable [currentPollDelay] of closure [c]. *)
Definition read_delay (c : nat) (w : World) : Z :=
  default 0 (currentPollDelay w !! c).

Definition write_delay (c : nat) (d : Z) (w : World) : World :=
  set_currentPollDelay (<[c := d]> (currentPollDelay w)) w.

(** [this.#pollerSchedule = setTimeout(pollerRoutine, currentPollDelay)] *)
Definition schedule (c : nat) (w : World) : World :=
  let handle := length (timers w) in
  let w := set_timers (timers w ++ [mkTimer (read_delay c w) c true]) w in
  set_this (set_pollerSchedule handle (this w)) w.

(** [#startPolling()] *)
Definition startPolling (w : World) : World :=
  match pollerSchedule (this w) with
  | Some _ => w
  | None =>
      let c := length (currentPollDelay w) in
      let w := set_currentPollDelay (currentPollDelay w ++ [1000]) w in
      schedule c w
  end.

(** [async #pollMessages()] up to its [await], called by closure [c]. *)
Definition pollMessages (c : nat) (w : World) : World :=
  let f := mkFetch (url_string (messagesUrl (this w)) +:+ "?start=" +:+
                      number_to_string (messagesReceived (this w)))
                   GET None in
  set_polls (polls w ++ [mkPoll f c None]) w.

(** One turn of [for (const message of messages)]. *)
Definition for_message (c : nat) (w : World) (message : jobject) : World :=
  let w := emit (invoke (onDeviceMsgCb (this w)) (prop message "payload")) w in
  write_delay c 1000 w.

(** The rest of [#pollMessages] and of [pollerRoutine] once the array
    [messages] has arrived. *)
Definition pollerRoutine_resume (c : nat) (messages : list jobject) (w : World)
  : World :=
  let w := set_this (set_messagesReceived
                       (messagesReceived (this w) + Z.of_nat (length messages))
                       (this w)) w in
  let w := write_delay c (Z.min 60000 (2 * read_delay c w)) w in
  let w := fold_left (for_message c) messages w in
  schedule c w.

(** [obj.k] on any value: a [TypeError] ([None]) on [null] and
    [undefined]. *)
Definition prop_of (v : json) (k : string) : option json :=
  match v with
  | JObj o => Some (prop o k)
  | JUndefined | JNull => None
  | _ => Some JUndefined
  end.

(** [requestDevice] from the answer of the connect endpoint on. *)
Definition requestDevice_resume (config : json) (p : nat) (response : json)
                                (w : World) : World :=
  match prop_of response "connection_id", prop_of response "device_info" with
  | Some connId, Some device_info =>
      let forward :=
        httpUrl (location w)
                ("polled_connections/" +:+ to_string connId +:+ "/:forward") in
      let messages :=
        httpUrl (location w)
                ("polled_connections/" +:+ to_string connId +:+ "/messages") in
      let w := set_this (set_urls forward messages (this w)) w in
      let w := startPolling w in
      settle_promise p
        (Fulfilled (JObj {[ "deviceInfo" := device_info;
                            "infraConfig" := config ]})) w
  | _, _ =>
      settle_promise p
        (Rejected (TypeError "Cannot read properties of null")) w
  end.

(** The suspended function [k] goes on with the reply [r]. *)
Definition resume (k : awaiting) (r : reply) (w : World) : World :=
  match k, r with
  | in_getConfig deviceId p, Json v =>
      let w := set_this (set_config v (this w)) w in
      requestDevice_connect deviceId v p w
  | in_requestDevice config p, Json response =>
      requestDevice_resume config p response w
  | in_sendToDevice p, Json v => settle_promise p (Fulfilled v) w
  | in_getConfig _ p, Failed e
  | in_requestDevice _ p, Failed e
  | in_sendToDevice p, Failed e => settle_promise p (Rejected e) w
  end.

(** What the page, the timers and the server do to a connector. *)
Inductive input : Type :=
  | CallOnDeviceMsg (cb : callback)
  | CallRequestDevice (deviceId : json)
  | CallSendToDevice (msg : json)
  | Timeout (handle : nat)                   (* timer [handle] expires *)
  | Reply (request : nat) (r : reply)        (* [requests !! request] is answered *)
  | PollReply (n : nat) (r : thrown + list jobject). (* [polls !! n] is answered *)

Definition step (w : World) (i : input) : World :=
  match i with
  | CallOnDeviceMsg cb => onDeviceMsg cb w
  | CallRequestDevice deviceId => fst (requestDevice deviceId w)
  | CallSendToDevice msg => fst (sendToDevice msg w)
  | Timeout handle =>
      match timers w !! handle with
      | Some (mkTimer d c true) =>
          pollMessages c (set_timers (<[handle := mkTimer d c false]> (timers w)) w)
      | _ => w
      end
  | Reply request r =>
      match requests w !! request with
      | Some (mkRequest f k None) =>
          resume k r
            (set_requests (<[request := mkRequest f k (Some r)]> (requests w)) w)
      | _ => w
      end
  | PollReply n r =>
      match polls w !! n with
      | Some (mkPoll f c None) =>
          let w := set_polls (<[n := mkPoll f c (Some r)]> (polls w)) w in
          match r with
          | inr messages => pollerRoutine_resume c messages w
          | inl _ => w             (* the rejection of [pollerRoutine] is unhandled *)
          end
      | _ => w
      end
  end.

Definition run (w : World) (inputs : list input) : World :=
  fold_left step inputs w.

(** A connector whose [requestDevice] has gone through: the configuration
    [cfg] was fetched and the connect endpoint answered [response]. *)
Definition connected (loc : Location) (deviceId cfg : json) (response : jobject)
  : World :=
  run (constructor loc)
      [CallRequestDevice deviceId; Reply 0 (Json cfg);
       Reply 1 (Json (JObj response))].

(** *** What is observed of a run *)

(** The array that has arrived for a poll, empty if none has. *)
Definition batch (q : Poll) : list jobject :=
  match answer q with
  | Some (inr messages) => messages
  | _ => []
  end.

(** The sum of the lengths of the arrays that have arrived for [ps]. *)
Definition received (ps : list Poll) : Z :=
  foldr (λ q n, Z.of_nat (length (batch q)) + n) 0 ps.

Definition payload (message : jobject) : json := prop message "payload".

(** The delay that follows the delay [d] after a poll that brought
    [messages]. *)
Definition next_delay (d : Z) (messages : list jobject) : Z :=
  match messages with
  | [] => Z.min 60000 (2 * d)
  | _ :: _ => 1000
  end.

(** The delays of the successive timers of a loop whose first delay is
    [d] and whose polls are [ps]. *)
Fixpoint delays_from (d : Z) (ps : list Poll) : list Z :=
  match ps with
  | [] => [d]
  | q :: ps => d :: delays_from (next_delay d (batch q)) ps
  end.

Definition in_flight (q : Poll) : bool :=
  match answer q with None => true | Some _ => false end.

Definition failed (q : Poll) : bool :=
  match answer q with Some (inl _) => true | _ => false end.

(** The polling cycles alive in a world: timers that will still run
    [pollerRoutine], and runs of [pollerRoutine] waiting for their poll. *)
Definition cycles (w : World) : nat :=
  length (List.filter armed (timers w))
  + length (List.filter in_flight (polls w)).

(** A server that keeps the messages of the connection in the sequence
    [log] answers a poll for [start] with messages of the log from index
    [start] on. *)
Definition served_from (log : list jobject) (ps : list Poll) : Prop :=
  ∀ (n : nat) (q : Poll) (messages : list jobject),
    ps !! n = Some q →
    answer q = Some (inr messages) →
    messages = take (length messages) (drop (Z.to_nat (received (take n ps))) log).

Definition is_CallRequestDevice (i : input) : bool :=
  match i with CallRequestDevice _ => true | _ => false end.

(** The GETs of the configuration made so far. *)
Definition is_config_fetch (r : Request) : bool :=
  match caller r with in_getConfig _ _ => true | _ => false end.

Definition config_fetches (w : World) : list Request :=
  List.filter is_config_fetch (requests w).

Definition pending (r : Request) : bool :=
  match response r with None => true | Some _ => false end.

(** The configuration [c] is stored and no GET of it is in flight. *)
Definition config_settled (c : json) (w : World) : Prop :=
  config (this w) = c
  ∧ is_undefined c = false
  ∧ forallb (λ r, negb (is_config_fetch r && pending r)) (requests w) = true.

(** *** The invariant of the polling loop *)

Definition expired (t : Timer) : Prop := armed t = false ∧ expires t = 0%nat.

Definition answered (q : Poll) : Prop :=
  routine q = 0%nat ∧ ∃ messages, answer q = Some (inr messages).

(** The loop is in one of three phases: not started; waiting for its
    timer; or past its last timer, with the last poll in flight or
    failed. *)
Inductive phase (w : World) : Prop :=
  | not_started :
      pollerSchedule (this w) = None →
      timers w = [] → polls w = [] → currentPollDelay w = [] →
      phase w
  | timer_armed (ts : list Timer) (d : Z) :
      pollerSchedule (this w) = Some (length ts) →
      timers w = ts ++ [mkTimer d 0 true] →
      Forall expired ts →
      Forall answered (polls w) →
      length (polls w) = length ts →
      currentPollDelay w = [d] →
      phase w
  | poll_made (ts : list Timer) (d : Z) (ps : list Poll) (f : Fetch)
              (a : option (thrown + list jobject)) :
      pollerSchedule (this w) = Some (length ts) →
      timers w = ts ++ [mkTimer d 0 false] →
      Forall expired ts →
      polls w = ps ++ [mkPoll f 0 a] →
      Forall answered ps →
      (∀ messages, a ≠ Some (inr messages)) →
      length ps = length ts →
      currentPollDelay w = [d] →
      phase w.

Definition messages_endpoint (loc : Location) (connId : string) : string :=
  httpUrl loc ("polled_connections/" +:+ connId +:+ "/messages").

Record invariant (loc : Location) (w : World) : Prop := mkInvariant {
  inv_location : location w = loc;
  inv_phase : phase w;
  inv_cursor : messagesReceived (this w) = received (polls w);
  inv_delays :
    map delay (timers w) = take (length (timers w)) (delays_from 1000 (polls w));
  inv_urls :
    ∀ n q, polls w !! n = Some q →
      ∃ connId, url (poll q) =
        messages_endpoint loc connId +:+ "?start=" +:+
          number_to_string (received (take n (polls w)));
  inv_messagesUrl :
    pollerSchedule (this w) ≠ None →
    ∃ connId, messagesUrl (this w) = Some (messages_endpoint loc connId);
  inv_calls :
    (calls (effects w)).*2 = payload <$> flat_map batch (polls w);
}.

End PollingConnector.

(** ** Runs of the websocket connector *)

Module WebsocketRun.
Import WebsocketConnector.

Definition is_device_msg (c : message_case) : bool :=
  match c with case_device_msg => true | _ => false end.

Definition is_CallOnDeviceMsg (i : input) : bool :=
  match i with CallOnDeviceMsg _ => true | _ => false end.

(** No call of [onDeviceMsg] among [inputs]. *)
Definition no_registration (inputs : list input) : bool :=
  forallb (λ i, negb (is_CallOnDeviceMsg i)) inputs.

(** The calls of the device-message callback that [inputs] cause, in
    order, when [cb] is the function registered before them. *)
Fixpoint deliveries (cb : callback) (inputs : list input)
  : list (callback * json) :=
  match inputs with
  | [] => []
  | CallOnDeviceMsg cb' :: rest => deliveries cb' rest
  | Message message :: rest =>
      if negb (truthy (prop message "error"))
         && is_device_msg (switch (prop message "message_type"))
      then (cb, prop message "payload") :: deliveries cb rest
      else deliveries cb rest
  | _ :: rest => deliveries cb rest
  end.

(** The frames written to the socket among the effects, in order. *)
Fixpoint sent (es : list effect) : list jobject :=
  match es with
  | [] => []
  | WsSend frame :: es => frame :: sent es
  | _ :: es => sent es
  end.

(** The frame a call of the interface writes. *)
Definition frame_of (i : input) : list jobject :=
  match i with
  | CallRequestDevice deviceId =>
      [ {[ "message_type" := JStr "connect"; "device_id" := deviceId ]} ]
  | CallSendToDevice msg =>
      [ {[ "message_type" := JStr "forward"; "payload" := msg ]} ]
  | _ => []
  end.






(** Promise [p] is pending and no continuation in [#futures] belongs to
    it. *)
Definition orphaned (p : nat) (w : World) : Prop :=
  promises w !! p = Some Pending
  ∧ onDeviceAvailable (futures (this w)) ≠ Some p
  ∧ onConnectionFailed (futures (this w)) ≠ Some p.

End WebsocketRun.

(** ** Runs of the polling connector *)

Module PollingRun.
Import PollingConnector.

Definition is_CallOnDeviceMsg (i : input) : bool :=
  match i with CallOnDeviceMsg _ => true | _ => false end.

(** No call of [onDeviceMsg] among [inputs]. *)
Definition no_registration (inputs : list input) : bool :=
  forallb (λ i, negb (is_CallOnDeviceMsg i)) inputs.

(** What a batch of messages does to the environment when [cb] is the
    registered function. *)
Definition batch_effects (cb : callback) (messages : list jobject)
  : list effect :=
  flat_map (λ m, invoke cb (prop m "payload")) messages.

(** The promise an async function settles when it ends. *)
Definition promise_of (k : awaiting) : nat :=
  match k with
  | in_getConfig _ p | in_requestDevice _ p | in_sendToDevice p => p
  end.

(** Every request in flight has a pending promise, which no other request in
    flight shares. *)
Definition owned_by (rs : list Request) (ps : list promise_state) : Prop :=
  ∀ (i : nat) (r : Request),
    rs !! i = Some r →
    response r = None →
    ps !! promise_of (caller r) = Some Pending
    ∧ ∀ (j : nat) (r' : Request),
        rs !! j = Some r' →
        response r' = None →
        promise_of (caller r') = promise_of (caller r) →
        j = i.

Definition owned (w : World) : Prop := owned_by (requests w) (promises w).

(** The requests the connector makes, by the function that makes them. *)
Definition well_formed (loc : Location) (r : Request) : Prop :=
  match caller r with
  | in_getConfig _ _ => fetch r = mkFetch (httpUrl loc "infra_config") GET None
  | in_requestDevice _ _ =>
      ∃ deviceId,
        fetch r = mkFetch (httpUrl loc "polled_connections") POST
                          (Some {[ "device_id" := deviceId ]})
  | in_sendToDevice _ =>
      ∃ msg u,
        fetch r = mkFetch u POST (Some {[ "payload" := msg ]})
        ∧ (u = "undefined"
           ∨ ∃ connId, u = httpUrl loc ("polled_connections/" +:+ connId +:+ "/:forward"))
  end.

Record endpoints (loc : Location) (w : World) : Prop := mkEndpoints {
  ep_location : location w = loc;
  ep_config : configUrl (this w) = httpUrl loc "infra_config";
  ep_connect : connectUrl (this w) = httpUrl loc "polled_connections";
  ep_forward :
    forwardUrl (this w) = None
    ∨ ∃ connId,
        forwardUrl (this w) =
          Some (httpUrl loc ("polled_connections/" +:+ connId +:+ "/:forward"));
  ep_requests : Forall (well_formed loc) (requests w);
}.

(** The loop has been started and nothing of it is left: no timer is armed
    and no poll is in flight. *)
Definition halted (w : World) : Prop :=
  pollerSchedule (this w) ≠ None
  ∧ forallb (λ t, negb (armed t)) (timers w) = true
  ∧ forallb (λ q, negb (in_flight q)) (polls w) = true.

Definition is_empty_batch (q : Poll) : bool :=
  match answer q with Some (inr []) => true | _ => false end.

Definition brought_messages (q : Poll) : bool :=
  match answer q with Some (inr (_ :: _)) => true | _ => false end.

End PollingRun.

(** ** createConnector *)

Module Negotiator.

(** What the new [WebSocket] reports to the two handlers [connectWs]
    installs; [evt] stands for the error event, which the code only passes
    on to [console.error]. *)
Inductive socket_event : Type :=
  | onopen
  | onerror (evt : json).

Inductive log : Type :=
  | ConsoleDebug (args : list json)
  | ConsoleErr (args : list json)
  | ConsoleWarn (args : list json).

(** What [createConnector] returns. *)
Inductive connector : Type :=
  | Websocket (c : WebsocketConnector.World)
  | Polling (c : PollingConnector.World).

(** The promise of [connectWs()]: pending, resolved with the socket, or
    rejected with the error event. *)
Inductive handshake : Type :=
  | Connecting
  | Opened
  | Errored (evt : json).

Record World : Type := mkWorld {
  location : Location;
  socket_url : string;                 (* [ws.url] *)
  connectWs : handshake;
  returned : option connector;         (* the value of [createConnector()] *)
  console : list log;
}.

(** [createConnector()] up to [await connectWs()]. *)
Definition createConnector (location : Location) : World :=
  mkWorld location (websocketUrl location "connect_client") Connecting None [].

(** A socket event: the handler settles the promise of [connectWs], and if
    that promise was pending [createConnector] goes on. *)
Definition step (w : World) (e : socket_event) : World :=
  match connectWs w, e with
  | Connecting, onopen =>
      mkWorld (location w) (socket_url w) Opened
              (Some (Websocket WebsocketConnector.constructor))
              (console w ++
                 [ConsoleDebug [JStr ("Connected to " +:+ socket_url w)]])
  | Connecting, onerror evt =>
      mkWorld (location w) (socket_url w) (Errored evt)
              (Some (Polling (PollingConnector.constructor (location w))))
              (console w ++
                 [ConsoleErr [JStr "WebSocket error:"; evt];
                  ConsoleWarn
                    [JStr "Failed to connect websocket, trying polling instead"]])
  | _, _ => w
  end.

Definition run (w : World) (events : list socket_event) : World :=
  fold_left step events w.

End Negotiator.

(** * Promises and effects *)

Lemma settle_pending (p : nat) (s : promise_state) (ps : list promise_state) :
  ps !! p = Some Pending → settle p s ps !! p = Some s.
Proof.
  intros Hp. unfold settle. rewrite Hp.
  apply list_lookup_insert_eq. by eapply lookup_lt_Some.
Qed.

Lemma absent_is_falsy (message : jobject) (k : string) :
  message !! k = None → truthy (prop message k) = false.
Proof. intros H. unfold prop. by rewrite H. Qed.

Lemma calls_app (es1 es2 : list effect) :
  calls (es1 ++ es2) = calls es1 ++ calls es2.
Proof.
  induction es1 as [|[] es1 IH]; simpl; [done | | | by f_equal]; exact IH.
Qed.

Lemma calls_invoke (cb : callback) (payload : json) :
  calls (invoke cb payload) = [(cb, payload)].
Proof. by destruct cb. Qed.

(** * Properties of the websocket connector *)

Section websocket_connector.
Import WebsocketConnector.

(** The dispatcher on a message without error, by the case of its type. *)
Lemma onWebsocketMessage_device_info (w : World) (message : jobject) :
  truthy (prop message "error") = false →
  prop message "message_type" = JStr "device_info" →
  onWebsocketMessage message w =
    let f := futures (this w) in
    match onDeviceAvailable f with
    | Some p =>
        (set_futures (mkFutures None (onConnectionFailed f) (infraConfig f))
           (set_promises
              (settle p
                 (Fulfilled
                    (JObj {[ "deviceInfo" := prop message "device_info";
                             "infraConfig" := default JUndefined (infraConfig f) ]}))
                 (promises w)) w),
         Normal)
    | None =>
        (emit [ConsoleError [JStr "Received unsolicited device info"]] w, Normal)
    end.
Proof.
  intros Herr Htype. unfold onWebsocketMessage. rewrite Herr, Htype. reflexivity.
Qed.

Lemma onWebsocketMessage_config (w : World) (message : jobject) :
  truthy (prop message "error") = false →
  prop message "message_type" = JStr "config" →
  onWebsocketMessage message w =
    (set_futures (mkFutures (onDeviceAvailable (futures (this w)))
                            (onConnectionFailed (futures (this w)))
                            (Some (JObj message))) w, Normal).
Proof.
  intros Herr Htype. unfold onWebsocketMessage. rewrite Herr, Htype. reflexivity.
Qed.

(** C3: a 'device_info' message without error that finds the availability
    continuation of promise [p] registered calls it with
    [{deviceInfo, infraConfig}], which resolves [p] when it is still
    pending, and deletes the continuation; a later 'device_info' then
    finds none, and only logs 'Received unsolicited device info'.  After
    [requestDevice] on a new connector, 'config' followed by 'device_info'
    resolves the promise with the device info of the second message and
    the whole first message as configuration. *)
Theorem device_info_resolves_request :
  (∀ (w : World) (message : jobject) (p : nat),
      truthy (prop message "error") = false →
      prop message "message_type" = JStr "device_info" →
      onDeviceAvailable (futures (this w)) = Some p →
      let device :=
        JObj {[ "deviceInfo" := prop message "device_info";
                "infraConfig" :=
                  default JUndefined (infraConfig (futures (this w))) ]} in
      let w' := fst (onWebsocketMessage message w) in
      snd (onWebsocketMessage message w) = Normal
      ∧ promises w' = settle p (Fulfilled device) (promises w)
      ∧ (promises w !! p = Some Pending →
         promises w' !! p = Some (Fulfilled device))
      ∧ onDeviceAvailable (futures (this w')) = None
      ∧ onConnectionFailed (futures (this w')) =
          onConnectionFailed (futures (this w))
      ∧ infraConfig (futures (this w')) = infraConfig (futures (this w))
      ∧ effects w' = effects w
      ∧ ∀ later : jobject,
          truthy (prop later "error") = false →
          prop later "message_type" = JStr "device_info" →
          onWebsocketMessage later w' =
            (emit [ConsoleError [JStr "Received unsolicited device info"]] w',
             Normal))
  ∧ (∀ (deviceId : json) (cfg info : jobject),
      truthy (prop cfg "error") = false →
      prop cfg "message_type" = JStr "config" →
      truthy (prop info "error") = false →
      prop info "message_type" = JStr "device_info" →
      let '(w, p) := requestDevice deviceId constructor in
      promises (run w [Message cfg; Message info]) !! p =
        Some (Fulfilled (JObj {[ "deviceInfo" := prop info "device_info";
                                 "infraConfig" := JObj cfg ]}))).
Proof.
  split.
  - intros w message p Herr Htype Hp device w'. subst w'.
    rewrite (onWebsocketMessage_device_info w message Herr Htype).
    cbv zeta. rewrite Hp. cbn [fst snd].
    repeat split; try reflexivity.
    + intros Hpending. cbn. by apply settle_pending.
    + intros later Herr' Htype'.
      by rewrite (onWebsocketMessage_device_info _ later Herr' Htype').
  - intros deviceId cfg info Hce Hct Hie Hit.
    unfold requestDevice, wsSendJson. cbn [readyState constructor fst].
    unfold run. cbn [fold_left step].
    rewrite (onWebsocketMessage_config _ cfg Hce Hct). cbn [fst].
    rewrite (onWebsocketMessage_device_info _ info Hie Hit).
    reflexivity.
Qed.

Lemma device_info_resolves_request_witness :
  let cfg : jobject :=
    {[ "message_type" := JStr "config"; "ice_servers" := JArr [] ]} in
  let info : jobject :=
    {[ "message_type" := JStr "device_info";
       "device_info" := JObj {[ "device_id" := JStr "cvd-1" ]} ]} in
  let w := fst (requestDevice (JStr "cvd-1") constructor) in
  (truthy (prop cfg "error") = false ∧ prop cfg "message_type" = JStr "config")
  ∧ (truthy (prop info "error") = false
     ∧ prop info "message_type" = JStr "device_info")
  ∧ onDeviceAvailable (futures (this w)) = Some 0%nat
  ∧ promises (fst (onWebsocketMessage info w)) =
      settle 0 (Fulfilled
                  (JObj {[ "deviceInfo" := prop info "device_info";
                           "infraConfig" :=
                             default JUndefined (infraConfig (futures (this w))) ]}))
             (promises w)
  ∧ promises (run w [Message cfg; Message info]) !! 0%nat =
      Some (Fulfilled (JObj {[ "deviceInfo" := prop info "device_info";
                               "infraConfig" := JObj cfg ]})).
Proof.
  intros cfg info w.
  assert (truthy (prop cfg "error") = false) as H1 by reflexivity.
  assert (prop cfg "message_type" = JStr "config") as H2 by reflexivity.
  assert (truthy (prop info "error") = false) as H3 by reflexivity.
  assert (prop info "message_type" = JStr "device_info") as H4 by reflexivity.
  assert (onDeviceAvailable (futures (this w)) = Some 0%nat) as H5 by reflexivity.
  refine (conj (conj H1 H2) (conj (conj H3 H4) (conj H5 (conj _ _)))).
  - exact (proj1 (proj2 (proj1 device_info_resolves_request w info 0%nat H3 H4 H5))).
  - exact (proj2 device_info_resolves_request (JStr "cvd-1") cfg info H1 H2 H3 H4).
Defined.

Lemma onWebsocketMessage_error (w : World) (message : jobject) :
  truthy (prop message "error") = true →
  onWebsocketMessage message w =
    call_onConnectionFailed (prop message "error")
      (emit [ConsoleError [prop message "error"]] w).
Proof. intros Herr. unfold onWebsocketMessage. by rewrite Herr. Qed.

(** C4: a message whose [error] is set (truthy, the test of the code) is
    logged and handed to the failure continuation, and nothing else is done
    with it whatever its type: the callback is not called and no field of
    the connector changes.  With the failure continuation of promise [p]
    registered, [p] is rejected with that error when it is still pending.
    After [requestDevice] on a new connector, [{error: "not found"}]
    rejects the promise with "not found". *)
Theorem error_message_rejects_request :
  (∀ (w : World) (message : jobject),
      truthy (prop message "error") = true →
      let w' := fst (onWebsocketMessage message w) in
      this w' = this w
      ∧ effects w' = effects w ++ [ConsoleError [prop message "error"]]
      ∧ calls (effects w') = calls (effects w)
      ∧ ∀ p : nat,
          onConnectionFailed (futures (this w)) = Some p →
          snd (onWebsocketMessage message w) = Normal
          ∧ promises w' =
              settle p (Rejected (Value (prop message "error"))) (promises w)
          ∧ (promises w !! p = Some Pending →
             promises w' !! p = Some (Rejected (Value (prop message "error")))))
  ∧ (∀ deviceId : json,
      let '(w, p) := requestDevice deviceId constructor in
      promises (run w [Message {[ "error" := JStr "not found" ]}]) !! p =
        Some (Rejected (Value (JStr "not found")))).
Proof.
  split.
  - intros w message Herr w'. subst w'.
    rewrite (onWebsocketMessage_error w message Herr).
    unfold call_onConnectionFailed. cbn [this emit futures].
    destruct (onConnectionFailed (futures (this w))) as [q|] eqn:Hq;
      cbn [fst snd this effects set_promises emit promises].
    + split; [done|]. split; [done|]. split.
      * rewrite calls_app. cbn. by rewrite app_nil_r.
      * intros p [= <-]. split; [done|]. split; [done|].
        intros Hpending. by apply settle_pending.
    + split; [done|]. split; [done|]. split; [|done].
      rewrite calls_app. cbn. by rewrite app_nil_r.
  - intros deviceId. reflexivity.
Qed.

Lemma error_message_rejects_request_witness :
  let w := fst (requestDevice (JStr "cvd-1") constructor) in
  let message : jobject :=
    {[ "message_type" := JStr "device_msg"; "payload" := JStr "offer";
       "error" := JStr "not found" ]} in
  truthy (prop message "error") = true
  ∧ onConnectionFailed (futures (this w)) = Some 0%nat
  ∧ promises w !! 0%nat = Some Pending
  ∧ calls (effects (fst (onWebsocketMessage message w))) = calls (effects w)
  ∧ promises (fst (onWebsocketMessage message w)) !! 0%nat =
      Some (Rejected (Value (prop message "error"))).
Proof.
  intros w message.
  assert (truthy (prop message "error") = true) as H1 by reflexivity.
  assert (onConnectionFailed (futures (this w)) = Some 0%nat) as H2 by reflexivity.
  assert (promises w !! 0%nat = Some Pending) as H3 by reflexivity.
  pose proof (proj1 error_message_rejects_request w message H1) as H.
  refine (conj H1 (conj H2 (conj H3 (conj _ _)))).
  - exact (proj1 (proj2 (proj2 H))).
  - exact (proj2 (proj2 (proj2 (proj2 (proj2 H)) 0%nat H2)) H3).
Defined.

Lemma step_keeps_onConnectionFailed (w : World) (i : input) :
  is_CallRequestDevice i = false →
  onConnectionFailed (futures (this (step w i))) =
    onConnectionFailed (futures (this w)).
Proof.
  intros Hi. destruct i as [cb|d|msg|message]; [done|done| |].
  - cbn [step]. unfold sendToDevice, wsSendJson.
    by destruct (readyState w).
  - cbn [step]. unfold onWebsocketMessage, call_onConnectionFailed.
    cbn [this emit futures].
    destruct (truthy (prop message "error")).
    + by destruct (onConnectionFailed (futures (this w))) eqn:E.
    + destruct (switch (prop message "message_type")); try reflexivity.
      * by destruct (onDeviceAvailable (futures (this w))) eqn:E.
      * by destruct (onConnectionFailed (futures (this w))) eqn:E.
Qed.

Lemma run_keeps_onConnectionFailed (inputs : list input) (w : World) :
  forallb (λ i, negb (is_CallRequestDevice i)) inputs = true →
  onConnectionFailed (futures (this (run w inputs))) =
    onConnectionFailed (futures (this w)).
Proof.
  revert w. induction inputs as [|i inputs IH]; intros w Hall; [done|].
  cbn in Hall. apply andb_prop in Hall as [Hi Hall].
  cbn [run fold_left]. fold (run (step w i) inputs).
  rewrite (IH _ Hall). apply step_keeps_onConnectionFailed.
  by destruct (is_CallRequestDevice i).
Qed.

(** C10: as long as [requestDevice] has not been called, whatever else has
    happened, [#futures] has no [onConnectionFailed]; a message with an
    error, or without error and of a type the [switch] does not know, then
    makes the dispatcher throw a [TypeError] at the call of that absent
    slot: no promise is settled, the callback is not called and the
    connector's fields stay as they are. *)
Theorem message_before_requestDevice_throws :
  (∀ inputs : list input,
      forallb (λ i, negb (is_CallRequestDevice i)) inputs = true →
      onConnectionFailed (futures (this (run constructor inputs))) = None)
  ∧ (∀ (w : World) (message : jobject),
      onConnectionFailed (futures (this w)) = None →
      truthy (prop message "error") = true
      ∨ switch (prop message "message_type") = case_default →
      let w' := fst (onWebsocketMessage message w) in
      snd (onWebsocketMessage message w) =
        Throw (TypeError "this.#futures.onConnectionFailed is not a function")
      ∧ promises w' = promises w
      ∧ this w' = this w
      ∧ calls (effects w') = calls (effects w)).
Proof.
  split.
  - intros inputs Hall. by rewrite run_keeps_onConnectionFailed.
  - intros w message Hnone Hcase w'. subst w'.
    unfold onWebsocketMessage, call_onConnectionFailed.
    cbn [this emit futures]. rewrite Hnone.
    destruct (truthy (prop message "error")) eqn:Herr.
    + cbn. rewrite calls_app. cbn. by rewrite app_nil_r.
    + destruct Hcase as [?|Hcase]; [done|]. rewrite Hcase.
      cbn. rewrite calls_app. cbn. by rewrite app_nil_r.
Qed.

Lemma message_before_requestDevice_throws_witness :
  let inputs := [CallOnDeviceMsg (Listener 1); CallSendToDevice (JStr "offer")] in
  let w := run constructor inputs in
  let failure : jobject := {[ "error" := JStr "not found" ]} in
  let unknown : jobject := {[ "message_type" := JStr "hello" ]} in
  forallb (λ i, negb (is_CallRequestDevice i)) inputs = true
  ∧ onConnectionFailed (futures (this w)) = None
  ∧ truthy (prop failure "error") = true
  ∧ switch (prop unknown "message_type") = case_default
  ∧ snd (onWebsocketMessage failure w) =
      Throw (TypeError "this.#futures.onConnectionFailed is not a function")
  ∧ snd (onWebsocketMessage unknown w) =
      Throw (TypeError "this.#futures.onConnectionFailed is not a function").
Proof.
  intros inputs w failure unknown.
  assert (forallb (λ i, negb (is_CallRequestDevice i)) inputs = true)
    as H1 by reflexivity.
  assert (truthy (prop failure "error") = true) as H3 by reflexivity.
  assert (switch (prop unknown "message_type") = case_default)
    as H4 by reflexivity.
  pose proof (proj1 message_before_requestDevice_throws inputs H1) as H2.
  refine (conj H1 (conj H2 (conj H3 (conj H4 (conj _ _))))).
  - exact (proj1 (proj2 message_before_requestDevice_throws w failure H2
                    (or_introl H3))).
  - exact (proj1 (proj2 message_before_requestDevice_throws w unknown H2
                    (or_intror H4))).
Defined.

End websocket_connector.

(** * Properties of the polling connector *)

Section polling_connector.
Import PollingConnector.

Lemma received_app (ps qs : list Poll) :
  received (ps ++ qs) = received ps + received qs.
Proof.
  unfold received. induction ps as [|q ps IH]; cbn [foldr app]; [lia|].
  rewrite IH. lia.
Qed.

Lemma received_length (ps : list Poll) :
  received ps = Z.of_nat (length (flat_map batch ps)).
Proof.
  unfold received. induction ps as [|q ps IH]; cbn [foldr flat_map]; [done|].
  rewrite IH, length_app. lia.
Qed.

Lemma delays_from_length (ps : list Poll) (d : Z) :
  length (delays_from d ps) = S (length ps).
Proof.
  revert d. induction ps as [|q ps IH]; intros d; cbn; [done|]. by rewrite IH.
Qed.

Lemma delays_from_snoc (ps : list Poll) (q : Poll) (d : Z) :
  delays_from d (ps ++ [q]) =
    delays_from d ps ++
      [next_delay (default d (last (delays_from d ps))) (batch q)].
Proof.
  revert d. induction ps as [|q' ps IH]; intros d; [done|].
  cbn [app delays_from]. rewrite IH. cbn [app]. do 3 f_equal.
  destruct (delays_from (next_delay d (batch q')) ps) as [|x l] eqn:E.
  - apply (f_equal length) in E. rewrite delays_from_length in E. done.
  - rewrite last_cons_cons. destruct (last (x :: l)) eqn:L; [done|].
    by apply last_None in L.
Qed.

Lemma take_delays_from_snoc (ps : list Poll) (q : Poll) (d : Z) :
  take (S (length ps)) (delays_from d (ps ++ [q])) = delays_from d ps.
Proof.
  rewrite delays_from_snoc.
  rewrite take_app_le by (rewrite delays_from_length; lia).
  apply take_ge. rewrite delays_from_length. lia.
Qed.

Lemma filter_none {A} (f : A → bool) (l : list A) :
  Forall (λ x, f x = false) l → List.filter f l = [].
Proof.
  induction 1 as [|x l Hx _ IH]; [done|]. cbn. by rewrite Hx.
Qed.

Lemma for_messages (c : nat) (messages : list jobject) (w : World) :
  fold_left (for_message c) messages w =
    mkWorld (location w) (this w)
            (match messages with
             | [] => currentPollDelay w
             | _ :: _ => <[c := 1000]> (currentPollDelay w)
             end)
            (timers w) (requests w) (polls w) (promises w)
            (effects w ++
               flat_map (λ m, invoke (onDeviceMsgCb (this w)) (payload m)) messages).
Proof.
  revert w. induction messages as [|m messages IH]; intros w.
  - cbn. rewrite app_nil_r. by destruct w.
  - cbn [fold_left]. rewrite IH. unfold for_message, write_delay, emit.
    cbn. rewrite <- app_assoc. f_equal.
    destruct messages; [done|]. by rewrite list_insert_insert_eq.
Qed.

Lemma pollerRoutine_resume_eq (messages : list jobject) (w : World) (d : Z) :
  currentPollDelay w = [d] →
  pollerRoutine_resume 0 messages w =
    mkWorld (location w)
            (set_pollerSchedule (length (timers w))
               (set_messagesReceived
                  (messagesReceived (this w) + Z.of_nat (length messages))
                  (this w)))
            [next_delay d messages]
            (timers w ++ [mkTimer (next_delay d messages) 0 true])
            (requests w) (polls w) (promises w)
            (effects w ++
               flat_map (λ m, invoke (onDeviceMsgCb (this w)) (payload m)) messages).
Proof.
  intros Hd. unfold pollerRoutine_resume. rewrite for_messages.
  unfold schedule, write_delay, read_delay. cbn. rewrite Hd. cbn.
  by destruct messages.
Qed.

Lemma calls_deliveries (cb : callback) (messages : list jobject) :
  calls (flat_map (λ m, invoke cb (payload m)) messages) =
    (λ m, (cb, payload m)) <$> messages.
Proof.
  induction messages as [|m messages IH]; [done|].
  cbn [flat_map]. rewrite calls_app, calls_invoke, IH. done.
Qed.

Lemma phase_frame (w w' : World) :
  phase w →
  pollerSchedule (this w') = pollerSchedule (this w) →
  timers w' = timers w →
  polls w' = polls w →
  currentPollDelay w' = currentPollDelay w →
  phase w'.
Proof.
  intros Hphase Hs Ht Hp Hd.
  destruct Hphase as [? ? ? ?|ts d ? ? ? ? ? ?|ts d ps f a ? ? ? ? ? ? ? ?].
  - apply not_started; congruence.
  - apply (timer_armed w' ts d); congruence.
  - apply (poll_made w' ts d ps f a); congruence.
Qed.

Lemma invariant_frame (loc : Location) (w w' : World) :
  invariant loc w →
  location w' = location w →
  pollerSchedule (this w') = pollerSchedule (this w) →
  messagesReceived (this w') = messagesReceived (this w) →
  (messagesUrl (this w') = messagesUrl (this w)
   ∨ ∃ connId, messagesUrl (this w') = Some (messages_endpoint loc connId)) →
  timers w' = timers w →
  polls w' = polls w →
  currentPollDelay w' = currentPollDelay w →
  calls (effects w') = calls (effects w) →
  invariant loc w'.
Proof.
  intros [Hl Hph Hc Hd Hu Hm He] El Es Er Eu Et Ep Ed Ee.
  split.
  - congruence.
  - by eapply phase_frame.
  - congruence.
  - by rewrite Et, Ep.
  - by rewrite Ep.
  - intros Hs. destruct Eu as [Eu|Eu]; [|done]. rewrite Eu. apply Hm. congruence.
  - by rewrite Ee, Ep.
Qed.

Lemma invariant_constructor (loc : Location) : invariant loc (constructor loc).
Proof.
  split; try done.
  - by apply not_started.
Qed.

Lemma armed_is_last (ts : list Timer) (t : Timer) (h : nat) (d : Z) (c : nat) :
  Forall expired ts →
  (ts ++ [t]) !! h = Some (mkTimer d c true) →
  h = length ts ∧ t = mkTimer d c true.
Proof.
  intros Hts Hh. apply lookup_app_Some in Hh as [Hh|[Hle Hh]].
  - eapply Forall_lookup_1 in Hts as [Ha _]; [|done]. done.
  - apply list_lookup_singleton_Some in Hh as [Hh ->]. split; [lia|done].
Qed.

Lemma in_flight_is_last (ps : list Poll) (q : Poll) (n : nat) (f : Fetch) (c : nat) :
  Forall answered ps →
  (ps ++ [q]) !! n = Some (mkPoll f c None) →
  n = length ps ∧ q = mkPoll f c None.
Proof.
  intros Hps Hn. apply lookup_app_Some in Hn as [Hn|[Hle Hn]].
  - eapply Forall_lookup_1 in Hps as [_ [messages Ha]]; [|done]. done.
  - apply list_lookup_singleton_Some in Hn as [Hn ->]. split; [lia|done].
Qed.

Lemma url_of_poll (loc : Location) (ps : list Poll) (q : Poll) :
  (∀ n q, ps !! n = Some q →
     ∃ connId, url (poll q) =
       messages_endpoint loc connId +:+ "?start=" +:+
         number_to_string (received (take n ps))) →
  (∃ connId, url (poll q) =
     messages_endpoint loc connId +:+ "?start=" +:+
       number_to_string (received ps)) →
  ∀ n q', (ps ++ [q]) !! n = Some q' →
     ∃ connId, url (poll q') =
       messages_endpoint loc connId +:+ "?start=" +:+
         number_to_string (received (take n (ps ++ [q]))).
Proof.
  intros Hps Hq n q' Hn. apply lookup_app_Some in Hn as [Hn|[Hle Hn]].
  - rewrite take_app_le by (apply lookup_lt_Some in Hn; lia). by apply Hps.
  - apply list_lookup_singleton_Some in Hn as [Hn <-].
    assert (n = length ps) as -> by lia.
    by rewrite take_app_length.
Qed.

Lemma invariant_Timeout (loc : Location) (w : World) (handle : nat) :
  invariant loc w → invariant loc (step w (Timeout handle)).
Proof.
  intros Hinv. cbn [step].
  destruct (timers w !! handle) as [[d c [|]]|] eqn:Hh; try done.
  destruct Hinv as [Hl Hph Hc Hd Hu Hm He].
  destruct Hph as [? Ht ? ?|ts d0 Hs Ht Hts Hps Hlen Hcell
                  |ts d0 ps f a Hs Ht Hts Hp Hps Ha Hlen Hcell].
  - by rewrite Ht in Hh.
  - rewrite Ht in Hh. apply armed_is_last in Hh as [-> [= <- <-]]; [|done].
    destruct Hm as [connId Hm]; [congruence|].
    assert (<[length ts := mkTimer d0 0 false]> (timers w) =
            ts ++ [mkTimer d0 0 false]) as Hins.
    { rewrite Ht, insert_app_r_alt by lia. by rewrite Nat.sub_diag. }
    unfold pollMessages. cbn. rewrite Hins, Hm. cbn [url_string default].
    set (q := mkPoll _ 0 None).
    split; cbn.
    + done.
    + eapply (poll_made _ ts d0 (polls w)); cbn; try done.
    + rewrite received_app. cbn. lia.
    + rewrite !map_app in *. rewrite Ht, map_app in Hd. cbn in *.
      rewrite length_app in *. cbn in *. rewrite Hd.
      replace (length ts + 1)%nat with (S (length (polls w))) by lia.
      rewrite take_delays_from_snoc.
      apply take_ge. rewrite delays_from_length. lia.
    + apply url_of_poll; [done|]. exists connId. subst q. cbn. by rewrite Hc.
    + intros _. by exists connId.
    + rewrite flat_map_app. cbn. by rewrite app_nil_r.
  - rewrite Ht in Hh. apply lookup_app_Some in Hh as [Hh|[Hle Hh]].
    + eapply Forall_lookup_1 in Hts as [? _]; [|done]. done.
    + by apply list_lookup_singleton_Some in Hh as [_ ?].
Qed.

Lemma urls_of_answered (loc : Location) (ps : list Poll) (f : Fetch) (c : nat)
      (a a' : option (thrown + list jobject)) :
  (∀ n q, (ps ++ [mkPoll f c a]) !! n = Some q →
     ∃ connId, url (poll q) =
       messages_endpoint loc connId +:+ "?start=" +:+
         number_to_string (received (take n (ps ++ [mkPoll f c a])))) →
  ∀ n q, (ps ++ [mkPoll f c a']) !! n = Some q →
     ∃ connId, url (poll q) =
       messages_endpoint loc connId +:+ "?start=" +:+
         number_to_string (received (take n (ps ++ [mkPoll f c a']))).
Proof.
  intros Hu n q Hn. apply lookup_app_Some in Hn as [Hn|[Hle Hn]].
  - rewrite take_app_le by (apply lookup_lt_Some in Hn; lia).
    destruct (Hu n q) as [connId Hq]; [by apply lookup_app_l_Some|].
    rewrite take_app_le in Hq by (apply lookup_lt_Some in Hn; lia). eauto.
  - apply list_lookup_singleton_Some in Hn as [Hn <-].
    assert (n = length ps) as -> by lia.
    destruct (Hu (length ps) (mkPoll f c a)) as [connId Hq].
    { by rewrite lookup_app_r, Nat.sub_diag. }
    rewrite take_app_length in *. eauto.
Qed.

Lemma invariant_PollReply (loc : Location) (w : World) (n : nat)
      (r : thrown + list jobject) :
  invariant loc w → invariant loc (step w (PollReply n r)).
Proof.
  intros Hinv. cbn [step].
  destruct (polls w !! n) as [[f c [a|]]|] eqn:Hn; try done.
  destruct Hinv as [Hl Hph Hc Hd Hu Hm He].
  destruct Hph as [? ? Hp ?|ts d0 Hs Ht Hts Hps Hlen Hcell
                  |ts d0 ps f0 a Hs Ht Hts Hp Hps Ha Hlen Hcell].
  - by rewrite Hp in Hn.
  - eapply Forall_lookup_1 in Hps as [_ [messages Ha]]; [|done]. done.
  - rewrite Hp in Hn. apply in_flight_is_last in Hn as [-> [= <- <- ->]]; [|done].
    assert (<[length ps := mkPoll f0 0 (Some r)]> (polls w) =
            ps ++ [mkPoll f0 0 (Some r)]) as Hins.
    { rewrite Hp, insert_app_r_alt by lia. by rewrite Nat.sub_diag. }
    rewrite Hins.
    assert (received (polls w) = received ps) as Hrec.
    { rewrite Hp, received_app. cbn. lia. }
    assert (flat_map batch (polls w) = flat_map batch ps) as Hbatches.
    { rewrite Hp, flat_map_app. cbn. by rewrite app_nil_r. }
    assert (map delay ts ++ [d0] = delays_from 1000 ps) as Hdelays.
    { rewrite Ht, Hp, map_app, length_app in Hd. cbn in Hd. rewrite Hd.
      replace (length ts + 1)%nat with (S (length ps)) by lia.
      apply take_delays_from_snoc. }
    rewrite Hp in Hu.
    destruct r as [e|messages].
    + split; cbn.
      * done.
      * eapply (poll_made _ ts d0 ps f0 (Some (inl e))); cbn; try done.
      * rewrite received_app. cbn. lia.
      * rewrite Ht, map_app, length_app. cbn.
        replace (length ts + 1)%nat with (S (length ps)) by lia.
        by rewrite take_delays_from_snoc.
      * by eapply urls_of_answered.
      * done.
      * rewrite flat_map_app. cbn. by rewrite app_nil_r, He, Hbatches.
    + rewrite (pollerRoutine_resume_eq messages _ d0) by done.
      split; cbn.
      * done.
      * eapply (timer_armed _ (ts ++ [mkTimer d0 0 false])
                  (next_delay d0 messages)); cbn.
        -- by rewrite Ht.
        -- by rewrite Ht.
        -- apply Forall_app. split; [done|]. by repeat constructor.
        -- apply Forall_app. split; [done|]. repeat constructor. by exists messages.
        -- rewrite !length_app. cbn. lia.
        -- done.
      * rewrite received_app, Hc, Hrec. cbn. lia.
      * rewrite Ht, !map_app, !length_app. cbn.
        rewrite delays_from_snoc, <- Hdelays, last_snoc. cbn.
        symmetry. apply take_ge. rewrite !length_app, length_map. cbn. lia.
      * by eapply urls_of_answered.
      * intros _. apply Hm. congruence.
      * rewrite calls_app, calls_deliveries, fmap_app, He, Hbatches.
        rewrite flat_map_app, fmap_app. cbn. rewrite app_nil_r.
        f_equal. rewrite <- list_fmap_compose. done.
Qed.

Lemma invariant_startPolling (loc : Location) (w : World) (forward connId : string) :
  invariant loc w →
  invariant loc
    (startPolling
       (set_this (set_urls forward (messages_endpoint loc connId) (this w)) w)).
Proof.
  intros Hinv. unfold startPolling. cbn [this set_this set_urls pollerSchedule].
  destruct (pollerSchedule (this w)) as [handle|] eqn:Hs.
  - eapply invariant_frame; try done. right. by exists connId.
  - destruct Hinv as [Hl Hph Hc Hd Hu Hm He].
    destruct Hph as [_ Ht Hp Hcell|ts d0 Hs'|ts d0 ps f a Hs']; [|congruence..].
    unfold schedule, read_delay. cbn. rewrite Ht, Hp, Hcell in *. cbn.
    split; cbn; try done.
    + apply (timer_armed _ [] 1000); cbn; rewrite ?Hp; done.
    + by rewrite Hp.
    + by rewrite Hp.
    + intros n q. by rewrite Hp.
    + intros _. by exists connId.
    + by rewrite Hp.
Qed.

Lemma invariant_resume (loc : Location) (w : World) (k : awaiting) (r : reply) :
  invariant loc w → invariant loc (resume k r w).
Proof.
  intros Hinv.
  destruct k as [deviceId p|cfg p|p], r as [e|v]; cbn [resume];
    try (eapply invariant_frame; try done; by left).
  unfold requestDevice_resume.
  destruct (prop_of v "connection_id") as [connId|],
           (prop_of v "device_info") as [device_info|];
    try (eapply invariant_frame; try done; by left).
  rewrite (inv_location _ _ Hinv).
  eapply invariant_frame; [by eapply invariant_startPolling|try done..].
  by left.
Qed.

Lemma invariant_step (loc : Location) (w : World) (i : input) :
  invariant loc w → invariant loc (step w i).
Proof.
  intros Hinv. destruct i as [cb|deviceId|msg|handle|request r|n r].
  - eapply invariant_frame; try done. by left.
  - cbn [step]. unfold requestDevice, getConfig, new_promise.
    cbn [this set_promises].
    destruct (is_undefined (config (this w)));
      (eapply invariant_frame; try done; by left).
  - eapply invariant_frame; try done. by left.
  - by apply invariant_Timeout.
  - cbn [step].
    destruct (requests w !! request) as [[f k [a|]]|]; try done.
    apply invariant_resume. eapply invariant_frame; try done. by left.
  - by apply invariant_PollReply.
Qed.

Lemma invariant_run (loc : Location) (inputs : list input) (w : World) :
  invariant loc w → invariant loc (run w inputs).
Proof.
  revert w. induction inputs as [|i inputs IH]; intros w Hinv; [done|].
  apply IH. by apply invariant_step.
Qed.


Lemma served_log (log : list jobject) (ps : list Poll) :
  served_from log ps →
  flat_map batch ps = take (Z.to_nat (received ps)) log.
Proof.
  induction ps as [|q ps IH] using rev_ind; intros Hserved.
  - by rewrite take_0.
  - assert (served_from log ps) as Hps.
    { intros n q' messages Hn Ha.
      specialize (Hserved n q' messages).
      rewrite take_app_le in Hserved by (apply lookup_lt_Some in Hn; lia).
      apply Hserved; [by apply lookup_app_l_Some|done]. }
    specialize (IH Hps).
    rewrite flat_map_app, received_app. cbn [flat_map]. rewrite app_nil_r.
    cbn [received foldr]. rewrite Z.add_0_r.
    assert (0 ≤ received ps) as Hpos by (rewrite received_length; lia).
    rewrite Z2Nat.inj_add, Nat2Z.id by lia.
    rewrite <- take_take_drop, <- IH. f_equal.
    unfold batch. destruct (answer q) as [[e|messages]|] eqn:Ha;
      [by rewrite take_0| |by rewrite take_0].
    specialize (Hserved (length ps) q messages).
    rewrite take_app_length in Hserved. apply Hserved; [|done].
    by rewrite lookup_app_r, Nat.sub_diag.
Qed.

Lemma earlier_polls_answered (w : World) (n : nat) (q : Poll) :
  phase w →
  polls w !! n = Some q →
  (S n < length (polls w))%nat →
  ∃ messages, answer q = Some (inr messages).
Proof.
  intros Hph Hn Hlt.
  destruct Hph as [? ? Hp ?|ts d0 Hs Ht Hts Hps Hlen Hcell
                  |ts d0 ps f a Hs Ht Hts Hp Hps Ha Hlen Hcell].
  - by rewrite Hp in Hn.
  - by eapply Forall_lookup_1 in Hps as [_ ?].
  - rewrite Hp in Hn, Hlt. rewrite length_app in Hlt. cbn in Hlt.
    rewrite lookup_app_l in Hn by lia.
    by eapply Forall_lookup_1 in Hps as [_ ?].
Qed.

Lemma delays_from_step (ps : list Poll) (d : Z) (k : nat) (x y : Z) (q : Poll) :
  delays_from d ps !! k = Some x →
  delays_from d ps !! S k = Some y →
  ps !! k = Some q →
  y = next_delay x (batch q).
Proof.
  revert d k. induction ps as [|q' ps IH]; intros d k Hx Hy Hq; [done|].
  destruct k as [|k].
  - cbn in *. destruct ps; cbn in *; congruence.
  - cbn in Hx, Hy, Hq. by eapply IH.
Qed.

Lemma timer_follows_poll (w : World) (k : nat) (t' : Timer) :
  phase w →
  timers w !! S k = Some t' →
  ∃ q messages, polls w !! k = Some q ∧ answer q = Some (inr messages).
Proof.
  intros Hph Hk.
  destruct Hph as [? Ht Hp ?|ts d0 Hs Ht Hts Hps Hlen Hcell
                  |ts d0 ps f a Hs Ht Hts Hp Hps Ha Hlen Hcell].
  - by rewrite Ht in Hk.
  - apply lookup_lt_Some in Hk. rewrite Ht, length_app in Hk. cbn in Hk.
    destruct (lookup_lt_is_Some_2 (polls w) k) as [q Hq]; [lia|].
    eapply Forall_lookup_1 in Hps as [_ [messages ?]]; [|done]. eauto.
  - apply lookup_lt_Some in Hk. rewrite Ht, length_app in Hk. cbn in Hk.
    destruct (lookup_lt_is_Some_2 ps k) as [q Hq]; [lia|].
    eapply Forall_lookup_1 in Hps as [_ [messages ?]]; [|done].
    exists q, messages. split; [|done]. rewrite Hp. by apply lookup_app_l_Some.
Qed.

Lemma phase_cycles (w : World) :
  phase w →
  (cycles w ≤ 1)%nat
  ∧ (length (currentPollDelay w) ≤ 1)%nat
  ∧ (pollerSchedule (this w) ≠ None →
     forallb (λ q, negb (failed q)) (polls w) = true →
     cycles w = 1%nat).
Proof.
  intros Hph. unfold cycles.
  destruct Hph as [Hs Ht Hp Hcell|ts d0 Hs Ht Hts Hps Hlen Hcell
                  |ts d0 ps f a Hs Ht Hts Hp Hps Ha Hlen Hcell].
  - rewrite Ht, Hp, Hcell. cbn. repeat split; [lia..|done].
  - rewrite Ht, Hcell, List.filter_app, (filter_none armed ts),
      (filter_none in_flight (polls w)).
    + cbn. repeat split; lia.
    + eapply Forall_impl; [done|]. intros q [_ [messages Ha]].
      unfold in_flight. by rewrite Ha.
    + eapply Forall_impl; [done|]. by intros t [? _].
  - rewrite Ht, Hp, Hcell, !List.filter_app, (filter_none armed ts),
      (filter_none in_flight ps).
    + cbn. unfold in_flight, failed. cbn.
      destruct a as [[e|messages]|]; cbn.
      * repeat split; [lia..|]. intros _. rewrite forallb_app. cbn.
        by rewrite andb_false_r.
      * by destruct (Ha messages).
      * repeat split; lia.
    + eapply Forall_impl; [done|]. intros q [_ [messages Hq]].
      unfold in_flight. by rewrite Hq.
    + eapply Forall_impl; [done|]. by intros t [? _].
Qed.


Lemma filter_length_insert {A} (f : A → bool) (l : list A) (i : nat) (x y : A) :
  l !! i = Some x → f y = f x →
  length (List.filter f (<[i := y]> l)) = length (List.filter f l).
Proof.
  revert i. induction l as [|z l IH]; intros i Hi Hf; [done|].
  destruct i as [|i]; simpl in *.
  - injection Hi as ->. rewrite Hf. by destruct (f x).
  - specialize (IH i Hi Hf). destruct (f z); simpl; by rewrite IH.
Qed.

Lemma requests_startPolling (w : World) : requests (startPolling w) = requests w.
Proof. unfold startPolling. by destruct (pollerSchedule (this w)). Qed.

Lemma this_config_startPolling (w : World) :
  config (this (startPolling w)) = config (this w).
Proof. unfold startPolling. by destruct (pollerSchedule (this w)). Qed.

Lemma requests_requestDevice_resume (cfg : json) (p : nat) (v : json) (w : World) :
  requests (requestDevice_resume cfg p v w) = requests w
  ∧ config (this (requestDevice_resume cfg p v w)) = config (this w).
Proof.
  unfold requestDevice_resume.
  destruct (prop_of v "connection_id"), (prop_of v "device_info"); try done.
  cbn. by rewrite requests_startPolling, this_config_startPolling.
Qed.

Lemma requests_pollerRoutine_resume (c : nat) (messages : list jobject) (w : World) :
  requests (pollerRoutine_resume c messages w) = requests w
  ∧ config (this (pollerRoutine_resume c messages w)) = config (this w).
Proof. unfold pollerRoutine_resume. by rewrite for_messages. Qed.

(** A GET of the configuration is made by the calls of [requestDevice]
    that find nothing stored, and by nothing else. *)
Lemma config_fetches_step (w : World) (i : input) :
  length (config_fetches (step w i)) =
    (length (config_fetches w) +
     match i with
     | CallRequestDevice _ => if is_undefined (config (this w)) then 1 else 0
     | _ => 0
     end)%nat.
Proof.
  unfold config_fetches.
  destruct i as [cb|deviceId|msg|handle|request r|n r]; cbn [step].
  - cbn. lia.
  - unfold requestDevice, getConfig, new_promise. cbn [this set_promises].
    destruct (is_undefined (config (this w))); cbn;
      rewrite List.filter_app, length_app; cbn; lia.
  - cbn. rewrite List.filter_app, length_app. cbn. lia.
  - destruct (timers w !! handle) as [[d c [|]]|]; cbn; lia.
  - destruct (requests w !! request) as [[f k [a|]]|] eqn:Hr; [lia| |lia].
    rewrite Nat.add_0_r.
    rewrite <- (filter_length_insert is_config_fetch (requests w) request
                  (mkRequest f k None) (mkRequest f k (Some r))) by done.
    destruct k as [deviceId p|cfg p|p], r as [e|v]; cbn [resume]; try done.
    + cbn. rewrite List.filter_app, length_app. cbn. lia.
    + by rewrite (proj1 (requests_requestDevice_resume _ _ _ _)).
  - destruct (polls w !! n) as [[f c [a|]]|]; [lia| |lia].
    destruct r as [e|messages]; [cbn; lia|].
    rewrite (proj1 (requests_pollerRoutine_resume _ _ _)). cbn. lia.
Qed.

Lemma forallb_insert {A} (f : A → bool) (l : list A) (i : nat) (y : A) :
  forallb f l = true → f y = true → forallb f (<[i := y]> l) = true.
Proof.
  revert i. induction l as [|z l IH]; intros i Hl Hy; [done|].
  cbn in Hl. apply andb_prop in Hl as [Hz Hl].
  destruct i as [|i]; cbn.
  - by rewrite Hy, Hl.
  - by rewrite Hz, IH.
Qed.

Lemma forallb_lookup {A} (f : A → bool) (l : list A) (i : nat) (x : A) :
  forallb f l = true → l !! i = Some x → f x = true.
Proof.
  intros Hl Hi. rewrite forallb_forall in Hl. apply Hl.
  apply list_elem_of_In. by eapply list_elem_of_lookup_2.
Qed.

Lemma config_settled_step (c : json) (w : World) (i : input) :
  config_settled c w → config_settled c (step w i).
Proof.
  intros (Hc & Hdef & Hreqs). unfold config_settled.
  destruct i as [cb|deviceId|msg|handle|request r|n r]; cbn [step].
  - done.
  - unfold requestDevice, getConfig, new_promise. cbn [this set_promises].
    rewrite Hc, Hdef. cbn. repeat split; [done..|].
    rewrite forallb_app, Hreqs. done.
  - cbn. repeat split; [done..|]. rewrite forallb_app, Hreqs. done.
  - by destruct (timers w !! handle) as [[d k [|]]|].
  - destruct (requests w !! request) as [[f k [a|]]|] eqn:Hr; try done.
    pose proof (forallb_lookup _ _ _ _ Hreqs Hr) as Hk. cbn in Hk.
    pose proof (forallb_insert _ (requests w) request
                  (mkRequest f k (Some r)) Hreqs) as Hins.
    cbn in Hins. rewrite andb_false_r in Hins. specialize (Hins eq_refl).
    destruct k as [deviceId p|cfg p|p]; [done| |].
    + destruct r as [e|v]; cbn [resume]; [done|].
      destruct (requests_requestDevice_resume cfg p v
                  (set_requests
                     (<[request := mkRequest f (in_requestDevice cfg p) (Some (Json v))]>
                        (requests w)) w)) as [-> ->].
      done.
    + by destruct r as [e|v].
  - destruct (polls w !! n) as [[f k [a|]]|]; try done.
    destruct r as [e|messages]; [done|].
    by destruct (requests_pollerRoutine_resume k messages
                   (set_polls (<[n := mkPoll f k (Some (inr messages))]> (polls w)) w))
      as [-> ->].
Qed.

Lemma config_settled_run (c : json) (inputs : list input) (w : World) :
  config_settled c w →
  config_settled c (run w inputs)
  ∧ length (config_fetches (run w inputs)) = length (config_fetches w).
Proof.
  revert w. induction inputs as [|i inputs IH]; intros w Hw; [done|].
  cbn [run fold_left]. fold (run (step w i) inputs).
  destruct (IH _ (config_settled_step c w i Hw)) as [IH1 IH2].
  split; [done|]. rewrite IH2, config_fetches_step.
  destruct Hw as (-> & -> & _). destruct i; lia.
Qed.

Lemma config_fetches_run (inputs : list input) (w : World) :
  (length (config_fetches (run w inputs)) ≤
     length (config_fetches w) + length (List.filter is_CallRequestDevice inputs))%nat.
Proof.
  revert w. induction inputs as [|i inputs IH]; intros w; [cbn; lia|].
  cbn [run fold_left]. fold (run (step w i) inputs).
  etrans; [apply IH|]. rewrite config_fetches_step.
  destruct i, (is_undefined (config (this w))); cbn; lia.
Qed.

Lemma first_batch_of_two (loc : Location) (deviceId cfg : json)
      (response m1 m2 : jobject) :
  let w := run (connected loc deviceId cfg response)
               [Timeout 0; PollReply 0 (inr [m1; m2]); Timeout 1] in
  (λ q, url (poll q)) <$> polls w =
    [messages_endpoint loc (to_string (prop response "connection_id"))
       +:+ "?start=0";
     messages_endpoint loc (to_string (prop response "connection_id"))
       +:+ "?start=2"]
  ∧ delay <$> timers w = [1000; 1000].
Proof. split; reflexivity. Qed.

Lemma five_empty_polls (loc : Location) (deviceId cfg : json) (response : jobject) :
  let w := run (connected loc deviceId cfg response)
               [Timeout 0; PollReply 0 (inr []);
                Timeout 1; PollReply 1 (inr []);
                Timeout 2; PollReply 2 (inr []);
                Timeout 3; PollReply 3 (inr []);
                Timeout 4; PollReply 4 (inr [])] in
  delay <$> timers w = [1000; 2000; 4000; 8000; 16000; 32000].
Proof. reflexivity. Qed.

Lemma reachable_invariant (loc : Location) (inputs : list input) :
  invariant loc (run (constructor loc) inputs).
Proof. apply invariant_run, invariant_constructor. Qed.

(** C1: in every run of a polling connector, whatever the page, the timers
    and the server do: the GET of poll [n+1] asks for [?start=] the sum of
    the lengths of the arrays that arrived for polls [1..n] (all of which
    have arrived by then), so [?start=0] for the first; the cursor held by
    the connector is the sum over all polls; the callback has been called
    once for each element of each array, in order, with its payload.  A
    server that answers a poll for [start] with the messages of its log
    from index [start] on therefore sees the first [messagesReceived]
    messages of its log delivered, each once.  After a first batch of two
    messages the second poll asks for [?start=2]. *)
Theorem poll_cursor_counts_received_messages (loc : Location) :
  (∀ inputs : list input,
      let w := run (constructor loc) inputs in
      (∀ (n : nat) (q : Poll),
          polls w !! n = Some q →
          (∃ connId, url (poll q) =
             messages_endpoint loc connId +:+ "?start=" +:+
               number_to_string (received (take n (polls w))))
          ∧ ∀ (k : nat) (q' : Poll),
              (k < n)%nat → polls w !! k = Some q' →
              ∃ messages, answer q' = Some (inr messages))
      ∧ messagesReceived (this w) = received (polls w)
      ∧ (calls (effects w)).*2 = payload <$> flat_map batch (polls w)
      ∧ ∀ log : list jobject,
          served_from log (polls w) →
          (calls (effects w)).*2 =
            payload <$> take (Z.to_nat (messagesReceived (this w))) log)
  ∧ (∀ (deviceId cfg : json) (response m1 m2 : jobject),
      let w := run (connected loc deviceId cfg response)
                   [Timeout 0; PollReply 0 (inr [m1; m2]); Timeout 1] in
      (λ q, url (poll q)) <$> polls w =
        [messages_endpoint loc (to_string (prop response "connection_id"))
           +:+ "?start=0";
         messages_endpoint loc (to_string (prop response "connection_id"))
           +:+ "?start=2"]
      ∧ messagesReceived (this w) = 2
      ∧ (calls (effects w)).*2 = [payload m1; payload m2]).
Proof.
  split.
  - intros inputs w.
    destruct (reachable_invariant loc inputs) as [Hl Hph Hc Hd Hu Hm He].
    fold w in Hph, Hc, Hu, He.
    split; [|split; [done|split; [done|]]].
    + intros n q Hn. split; [by apply Hu|].
      intros k q' Hk Hq'. eapply earlier_polls_answered; [done..|].
      apply lookup_lt_Some in Hn. lia.
    + intros log Hserved. by rewrite He, Hc, (served_log log).
  - intros deviceId cfg response m1 m2 w.
    split; [apply first_batch_of_two|]. split; reflexivity.
Qed.

Lemma poll_cursor_counts_received_messages_witness :
  let loc := mkLocation "https:" "localhost:1443" in
  let m1 : jobject := {[ "payload" := JStr "offer" ]} in
  let m2 : jobject := {[ "payload" := JStr "ice-candidate" ]} in
  let m3 : jobject := {[ "payload" := JStr "bye" ]} in
  let response : jobject :=
    {[ "connection_id" := JStr "c1"; "device_info" := JNull ]} in
  let inputs :=
    [CallRequestDevice (JStr "cvd-1"); Reply 0 (Json JNull);
     Reply 1 (Json (JObj response));
     Timeout 0; PollReply 0 (inr [m1; m2]);
     Timeout 1; PollReply 1 (inr [m3])] in
  let w := run (constructor loc) inputs in
  let second :=
    mkPoll (mkFetch "https://localhost:1443/polled_connections/c1/messages?start=2"
                    GET None) 0 (Some (inr [m3])) in
  (polls w !! 1%nat = Some second
   ∧ ∃ connId, url (poll second) =
       messages_endpoint loc connId +:+ "?start=" +:+
         number_to_string (received (take 1 (polls w))))
  ∧ served_from [m1; m2; m3] (polls w)
  ∧ (calls (effects w)).*2 =
      payload <$> take (Z.to_nat (messagesReceived (this w))) [m1; m2; m3].
Proof.
  intros loc m1 m2 m3 response inputs w second.
  assert (polls w !! 1%nat = Some second) as Hsecond by reflexivity.
  assert (served_from [m1; m2; m3] (polls w)) as Hserved.
  { intros n q messages Hn Ha.
    destruct n as [|[|n]]; cbn in Hn; [| |done];
      injection Hn as <-; cbn in Ha; injection Ha as <-; reflexivity. }
  pose proof (proj1 (poll_cursor_counts_received_messages loc) inputs) as H.
  refine (conj (conj Hsecond _) (conj Hserved _)).
  - exact (proj1 (proj1 H 1%nat second Hsecond)).
  - exact (proj2 (proj2 (proj2 H)) [m1; m2; m3] Hserved).
Defined.

Lemma pollerRoutine_resume_timer (c : nat) (messages : list jobject) (w : World)
      (previous : Z) :
  currentPollDelay w !! c = Some previous →
  timers (pollerRoutine_resume c messages w) =
    timers w ++ [mkTimer (next_delay previous messages) c true]
  ∧ pollerSchedule (this (pollerRoutine_resume c messages w)) =
      Some (length (timers w)).
Proof.
  intros Hc. pose proof (lookup_lt_Some _ _ _ Hc) as Hlt.
  unfold pollerRoutine_resume. rewrite for_messages.
  unfold schedule, read_delay, write_delay. cbn. rewrite Hc. cbn.
  split; [|done]. do 2 f_equal.
  destruct messages; cbn;
    rewrite list_lookup_insert_eq; rewrite ?length_insert; done.
Qed.

Lemma delays_from_head (ps : list Poll) (d : Z) : delays_from d ps !! 0%nat = Some d.
Proof. by destruct ps. Qed.

Lemma timer_delay_lookup (loc : Location) (w : World) (k : nat) (t : Timer) :
  invariant loc w →
  timers w !! k = Some t →
  delays_from 1000 (polls w) !! k = Some (delay t).
Proof.
  intros Hinv Hk.
  assert ((delay <$> timers w) !! k = Some (delay t)) as Hd
    by (by rewrite list_lookup_fmap, Hk).
  change (delay <$> timers w) with (map delay (timers w)) in Hd.
  rewrite (inv_delays _ _ Hinv) in Hd.
  by apply lookup_take_Some in Hd as [Hd _].
Qed.

(** C2: when the array of a poll arrives, the timer set for the next poll
    has delay 1000 if the array has a message, and the minimum of 60000 and
    twice the previous delay (the value of [currentPollDelay]) if it is
    empty.  In every run the first timer has delay 1000, and each later
    timer follows the poll made by the timer before it, with delay 1000
    after a poll with messages and [min 60000 (2 * previous)] after an
    empty one.  With five empty polls in a row, the timers before the five
    polls have delays 1000, 2000, 4000, 8000, 16000, and the timer set
    after the fifth has delay 32000. *)
Theorem poll_delay_backoff (loc : Location) :
  (∀ (w : World) (n : nat) (f : Fetch) (c : nat) (previous : Z)
     (messages : list jobject),
      polls w !! n = Some (mkPoll f c None) →
      currentPollDelay w !! c = Some previous →
      let w' := step w (PollReply n (inr messages)) in
      timers w' =
        timers w ++
          [mkTimer (match messages with
                    | [] => Z.min 60000 (2 * previous)
                    | _ :: _ => 1000
                    end) c true]
      ∧ pollerSchedule (this w') = Some (length (timers w)))
  ∧ (∀ inputs : list input,
      let w := run (constructor loc) inputs in
      (∀ t, timers w !! 0%nat = Some t → delay t = 1000)
      ∧ ∀ (k : nat) (t t' : Timer),
          timers w !! k = Some t →
          timers w !! S k = Some t' →
          ∃ q messages,
            polls w !! k = Some q
            ∧ answer q = Some (inr messages)
            ∧ (messages ≠ [] → delay t' = 1000)
            ∧ (messages = [] → delay t' = Z.min 60000 (2 * delay t)))
  ∧ (∀ (deviceId cfg : json) (response : jobject),
      let w := run (connected loc deviceId cfg response)
                   [Timeout 0; PollReply 0 (inr []);
                    Timeout 1; PollReply 1 (inr []);
                    Timeout 2; PollReply 2 (inr []);
                    Timeout 3; PollReply 3 (inr []);
                    Timeout 4; PollReply 4 (inr [])] in
      delay <$> take 5 (timers w) = [1000; 2000; 4000; 8000; 16000]
      ∧ delay <$> drop 5 (timers w) = [32000]
      ∧ length (polls w) = 5%nat).
Proof.
  split; [|split].
  - intros w n f c previous messages Hn Hc w'. subst w'.
    cbn [step]. rewrite Hn.
    exact (pollerRoutine_resume_timer c messages
             (set_polls (<[n := mkPoll f c (Some (inr messages))]> (polls w)) w)
             previous Hc).
  - intros inputs w. pose proof (reachable_invariant loc inputs) as Hinv.
    fold w in Hinv. split.
    + intros t Ht. apply (timer_delay_lookup loc) in Ht; [|done].
      rewrite delays_from_head in Ht. congruence.
    + intros k t t' Hk Hk'.
      destruct (timer_follows_poll w k t' (inv_phase _ _ Hinv) Hk')
        as (q & messages & Hq & Ha).
      exists q, messages. split; [done|]. split; [done|].
      apply (timer_delay_lookup loc) in Hk, Hk'; [|done..].
      pose proof (delays_from_step _ _ _ _ _ _ Hk Hk' Hq) as Hstep.
      unfold batch in Hstep. rewrite Ha in Hstep. rewrite Hstep.
      by destruct messages.
  - intros deviceId cfg response w.
    pose proof (five_empty_polls loc deviceId cfg response) as Hfive.
    cbv zeta in Hfive. fold w in Hfive.
    rewrite fmap_take, fmap_drop, Hfive. repeat split.
Qed.

Lemma poll_delay_backoff_witness :
  let loc := mkLocation "https:" "localhost:1443" in
  let response : jobject :=
    {[ "connection_id" := JStr "c1"; "device_info" := JNull ]} in
  let inputs :=
    [CallRequestDevice (JStr "cvd-1"); Reply 0 (Json JNull);
     Reply 1 (Json (JObj response));
     Timeout 0; PollReply 0 (inr []);
     Timeout 1; PollReply 1 (inr [ {[ "payload" := JStr "offer" ]} ]);
     Timeout 2] in
  let w := run (constructor loc) inputs in
  (polls w !! 2%nat =
     Some (mkPoll (mkFetch "https://localhost:1443/polled_connections/c1/messages?start=1"
                           GET None) 0 None)
   ∧ currentPollDelay w !! 0%nat = Some 1000
   ∧ timers (step w (PollReply 2 (inr []))) =
       timers w ++ [mkTimer (Z.min 60000 (2 * 1000)) 0 true])
  ∧ (timers w !! 0%nat = Some (mkTimer 1000 0 false)
     ∧ timers w !! 1%nat = Some (mkTimer 2000 0 false)
     ∧ ∃ q messages,
         polls w !! 0%nat = Some q
         ∧ answer q = Some (inr messages)
         ∧ (messages ≠ [] → delay (mkTimer 2000 0 false) = 1000)
         ∧ (messages = [] →
            delay (mkTimer 2000 0 false) =
              Z.min 60000 (2 * delay (mkTimer 1000 0 false)))).
Proof.
  intros loc response inputs w.
  assert (polls w !! 2%nat =
            Some (mkPoll (mkFetch "https://localhost:1443/polled_connections/c1/messages?start=1"
                                  GET None) 0 None)) as H1 by reflexivity.
  assert (currentPollDelay w !! 0%nat = Some 1000) as H2 by reflexivity.
  assert (timers w !! 0%nat = Some (mkTimer 1000 0 false)) as H3 by reflexivity.
  assert (timers w !! 1%nat = Some (mkTimer 2000 0 false)) as H4 by reflexivity.
  split.
  - refine (conj H1 (conj H2 _)).
    exact (proj1 (proj1 (poll_delay_backoff loc) w 2%nat _ 0%nat 1000 [] H1 H2)).
  - refine (conj H3 (conj H4 _)).
    exact (proj2 (proj1 (proj2 (poll_delay_backoff loc)) inputs) 0%nat _ _ H3 H4).
Defined.

Lemma startPolling_started (w : World) :
  pollerSchedule (this (startPolling w)) ≠ None.
Proof.
  unfold startPolling. destruct (pollerSchedule (this w)) eqn:Hs; [|done].
  by rewrite Hs.
Qed.

Lemma startPolling_again (w : World) :
  pollerSchedule (this w) ≠ None → startPolling w = w.
Proof. intros Hs. unfold startPolling. by destruct (pollerSchedule (this w)). Qed.

(** C9: [#startPolling] leaves a connector on which it has run as it is:
    after a start [#pollerSchedule] holds a handle, and with a handle there
    the operation changes nothing.  So however often [requestDevice] starts
    the loop in a run, one closure [pollerRoutine] exists at most and at
    most one cycle is alive (a timer that will run it, or a run of it
    waiting for its poll); and once the loop is started exactly one cycle
    is alive for as long as no poll request has failed: the loop has no
    exit of its own. *)
Theorem startPolling_idempotent :
  (∀ w : World, pollerSchedule (this (startPolling w)) ≠ None)
  ∧ (∀ w : World, pollerSchedule (this w) ≠ None → startPolling w = w)
  ∧ (∀ w : World, startPolling (startPolling w) = startPolling w)
  ∧ (∀ (loc : Location) (inputs : list input),
      let w := run (constructor loc) inputs in
      (cycles w ≤ 1)%nat
      ∧ (length (currentPollDelay w) ≤ 1)%nat
      ∧ (pollerSchedule (this w) ≠ None →
         forallb (λ q, negb (failed q)) (polls w) = true →
         cycles w = 1%nat)).
Proof.
  split; [exact startPolling_started|].
  split; [exact startPolling_again|].
  split.
  - intros w. apply startPolling_again, startPolling_started.
  - intros loc inputs w. apply phase_cycles.
    apply (inv_phase loc), reachable_invariant.
Qed.

Lemma startPolling_idempotent_witness :
  let loc := mkLocation "https:" "localhost:1443" in
  let response : jobject :=
    {[ "connection_id" := JStr "c1"; "device_info" := JNull ]} in
  let inputs :=
    [CallRequestDevice (JStr "cvd-1"); Reply 0 (Json JNull);
     Reply 1 (Json (JObj response));
     Timeout 0; PollReply 0 (inr []);
     CallRequestDevice (JStr "cvd-1"); Reply 2 (Json (JObj response));
     Timeout 1] in
  let w := run (constructor loc) inputs in
  pollerSchedule (this w) ≠ None
  ∧ forallb (λ q, negb (failed q)) (polls w) = true
  ∧ startPolling w = w
  ∧ cycles w = 1%nat.
Proof.
  intros loc response inputs w.
  assert (pollerSchedule (this w) ≠ None) as H1 by (vm_compute; discriminate).
  assert (forallb (λ q, negb (failed q)) (polls w) = true) as H2 by reflexivity.
  refine (conj H1 (conj H2 (conj _ _))).
  - exact (proj1 (proj2 startPolling_idempotent) w H1).
  - exact (proj2 (proj2 (proj2 (proj2 (proj2 startPolling_idempotent))
                           loc inputs)) H1 H2).
Defined.

End polling_connector.

(** * The configuration, and sending before the device is requested *)

Section configuration.
Import PollingConnector.

(** C8, as stated, fails: a second [requestDevice] made while the GET of
    the first is in flight finds [#config] still [undefined] and makes a
    GET of its own, so two GETs of [infra_config] are in flight. *)
Lemma overlapping_getConfig_fetches_twice :
  let w := run (constructor (mkLocation "https:" "localhost:1443"))
               [CallRequestDevice (JStr "cvd-1");
                CallRequestDevice (JStr "cvd-1")] in
  (λ r, (url (fetch r), http_method (fetch r), pending r)) <$> requests w =
    [("https://localhost:1443/infra_config", GET, true);
     ("https://localhost:1443/infra_config", GET, true)].
Proof. reflexivity. Qed.

(** The reply to a GET of [#getConfig] is stored and handed to the caller. *)
Lemma getConfig_reply (w : World) (i : nat) (f : Fetch) (d v : json) (p : nat) :
  requests w !! i = Some (mkRequest f (in_getConfig d p) None) →
  step w (Reply i (Json v)) =
    requestDevice_connect d v p
      (set_this (set_config v (this w))
         (set_requests
            (<[i := mkRequest f (in_getConfig d p) (Some (Json v))]> (requests w))
            w)).
Proof. intros H. cbn [step]. by rewrite H. Qed.

Lemma requestDevice_fetches (w : World) (d : json) :
  is_undefined (config (this w)) = true →
  step w (CallRequestDevice d) =
    await_fetch (mkFetch (configUrl (this w)) GET None)
                (in_getConfig d (length (promises w)))
                (set_promises (promises w ++ [Pending]) w).
Proof.
  intros H. cbn [step]. unfold requestDevice, new_promise, getConfig.
  cbn [this set_promises]. by rewrite H.
Qed.

Lemma overlapping_requests (w : World) (d1 d2 : json) :
  is_undefined (config (this w)) = true →
  let w2 := run w [CallRequestDevice d1; CallRequestDevice d2] in
  let get := mkFetch (configUrl (this w)) GET None in
  let p := length (promises w) in
  requests w2 =
    requests w ++ [mkRequest get (in_getConfig d1 p) None;
                   mkRequest get (in_getConfig d2 (S p)) None]
  ∧ this w2 = this w
  ∧ promises w2 = promises w ++ [Pending; Pending].
Proof.
  intros H w2 get p. subst w2. unfold run. cbn [fold_left].
  rewrite (requestDevice_fetches w d1 H).
  rewrite requestDevice_fetches by exact H.
  cbn. rewrite <- !(assoc_L (++)). rewrite length_app. cbn.
  replace (length (promises w) + 1)%nat with (S (length (promises w))) by lia.
  done.
Qed.

(** C8, amended: [#getConfig] makes a GET whenever nothing is stored when
    it is called, also while an earlier GET is in flight, and returns the
    stored value without a request otherwise; so the GETs of a run are
    made by the calls of [requestDevice] that find nothing stored.  The
    reply to a GET, whenever it arrives and whatever is stored or in flight
    then, becomes the stored value and is the configuration its own caller
    goes on with: the caller posts to the connect endpoint and its promise
    is fulfilled with that configuration, also when another reply has been
    stored in between.  So of two overlapping calls, in any state with
    nothing stored and for both orders of arrival, each goes on with the
    result of its own GET and the stored value ends as the one that arrived
    last. *)
Theorem getConfig_fetches_unless_stored :
  (∀ (w : World) (deviceId : json) (p : nat),
      is_undefined (config (this w)) = true →
      getConfig deviceId p w =
        (await_fetch (mkFetch (configUrl (this w)) GET None)
                     (in_getConfig deviceId p) w, None))
  ∧ (∀ (w : World) (deviceId : json) (p : nat),
      is_undefined (config (this w)) = false →
      getConfig deviceId p w = (w, Some (config (this w))))
  ∧ (∀ (w : World) (i : input),
      length (config_fetches (step w i)) =
        (length (config_fetches w) +
         match i with
         | CallRequestDevice _ => if is_undefined (config (this w)) then 1 else 0
         | _ => 0
         end)%nat)
  ∧ (∀ (w : World) (i : nat) (f : Fetch) (d v : json) (p : nat),
      requests w !! i = Some (mkRequest f (in_getConfig d p) None) →
      let w' := step w (Reply i (Json v)) in
      config (this w') = v
      ∧ requests w' =
          <[i := mkRequest f (in_getConfig d p) (Some (Json v))]> (requests w) ++
          [mkRequest (mkFetch (connectUrl (this w)) POST
                              (Some {[ "device_id" := d ]}))
                     (in_requestDevice v p) None]
      ∧ promises w' = promises w)
  ∧ (∀ (w : World) (j : nat) (f : Fetch) (v : json) (p : nat)
       (response : jobject),
      requests w !! j = Some (mkRequest f (in_requestDevice v p) None) →
      promises w !! p = Some Pending →
      let w' := step w (Reply j (Json (JObj response))) in
      promises w' !! p =
        Some (Fulfilled (JObj {[ "deviceInfo" := prop response "device_info";
                                 "infraConfig" := v ]}))
      ∧ config (this w') = config (this w))
  ∧ (∀ (w : World) (d1 d2 v1 v2 : json),
      is_undefined (config (this w)) = true →
      let n := length (requests w) in
      let p := length (promises w) in
      let get := mkFetch (configUrl (this w)) GET None in
      let post d :=
        mkFetch (connectUrl (this w)) POST (Some {[ "device_id" := d ]}) in
      let w2 := run w [CallRequestDevice d1; CallRequestDevice d2] in
      let first_then_second :=
        run w2 [Reply n (Json v1); Reply (S n) (Json v2)] in
      let second_then_first :=
        run w2 [Reply (S n) (Json v2); Reply n (Json v1)] in
      requests w2 =
        requests w ++ [mkRequest get (in_getConfig d1 p) None;
                       mkRequest get (in_getConfig d2 (S p)) None]
      ∧ requests first_then_second =
          requests w ++ [mkRequest get (in_getConfig d1 p) (Some (Json v1));
                         mkRequest get (in_getConfig d2 (S p)) (Some (Json v2));
                         mkRequest (post d1) (in_requestDevice v1 p) None;
                         mkRequest (post d2) (in_requestDevice v2 (S p)) None]
      ∧ config (this first_then_second) = v2
      ∧ requests second_then_first =
          requests w ++ [mkRequest get (in_getConfig d1 p) (Some (Json v1));
                         mkRequest get (in_getConfig d2 (S p)) (Some (Json v2));
                         mkRequest (post d2) (in_requestDevice v2 (S p)) None;
                         mkRequest (post d1) (in_requestDevice v1 p) None]
      ∧ config (this second_then_first) = v1).
Proof.
  split; [|split; [|split; [|split; [|split]]]].
  - intros w deviceId p Hc. unfold getConfig. by rewrite Hc.
  - intros w deviceId p Hc. unfold getConfig. by rewrite Hc.
  - exact config_fetches_step.
  - intros w i f d v p Hi w'. subst w'. by rewrite (getConfig_reply _ _ _ _ _ _ Hi).
  - intros w j f v p response Hj Hp w'. subst w'. cbn [step]. rewrite Hj.
    cbn [resume]. unfold requestDevice_resume, settle_promise. cbn [prop_of].
    split.
    + cbn [promises set_promises]. apply settle_pending.
      unfold startPolling. by destruct (pollerSchedule _).
    + unfold startPolling. by destruct (pollerSchedule _).
  - intros w d1 d2 v1 v2 Hc n p get post w2 first_then_second second_then_first.
    destruct (overlapping_requests w d1 d2 Hc) as (Hr & Ht & Hp).
    fold w2 in Hr, Ht, Hp.
    assert (requests w2 !! n = Some (mkRequest get (in_getConfig d1 p) None))
      as H1.
    { rewrite Hr. subst n. by rewrite lookup_app_r, Nat.sub_diag by lia. }
    assert (requests w2 !! S n = Some (mkRequest get (in_getConfig d2 (S p)) None))
      as H2.
    { rewrite Hr. subst n. rewrite lookup_app_r by lia.
      by replace (S (length (requests w)) - length (requests w))%nat
        with 1%nat by lia. }
    assert (<[n := mkRequest get (in_getConfig d1 p) (Some (Json v1))]>
              (requests w2) =
            requests w ++ [mkRequest get (in_getConfig d1 p) (Some (Json v1));
                           mkRequest get (in_getConfig d2 (S p)) None]) as I1.
    { rewrite Hr. subst n. rewrite insert_app_r_alt, Nat.sub_diag by lia. done. }
    assert (<[S n := mkRequest get (in_getConfig d2 (S p)) (Some (Json v2))]>
              (requests w2) =
            requests w ++ [mkRequest get (in_getConfig d1 p) None;
                           mkRequest get (in_getConfig d2 (S p)) (Some (Json v2))])
      as I2.
    { rewrite Hr. subst n. rewrite insert_app_r_alt by lia.
      by replace (S (length (requests w)) - length (requests w))%nat
        with 1%nat by lia. }
    split; [exact Hr|].
    subst first_then_second second_then_first. clearbody w2.
    unfold run. cbn [fold_left].
    rewrite (getConfig_reply w2 n _ _ v1 _ H1).
    rewrite (getConfig_reply w2 (S n) _ _ v2 _ H2).
    rewrite I1, I2.
    erewrite (getConfig_reply _ (S n)); cycle 1.
    { cbn. rewrite <- (assoc_L (++)). subst n.
      rewrite lookup_app_r by lia.
      by replace (S (length (requests w)) - length (requests w))%nat
        with 1%nat by lia. }
    erewrite (getConfig_reply _ n); cycle 1.
    { cbn. rewrite <- (assoc_L (++)). subst n.
      by rewrite lookup_app_r, Nat.sub_diag by lia. }
    cbn. rewrite Ht. subst n. rewrite <- !(assoc_L (++)).
    split; [|split; [done|split; [|done]]].
    + rewrite insert_app_r_alt by lia.
      replace (S (length (requests w)) - length (requests w))%nat
        with 1%nat by lia.
      by rewrite <- (assoc_L (++)).
    + rewrite insert_app_r_alt, Nat.sub_diag by lia.
      by rewrite <- (assoc_L (++)).
Qed.

Lemma getConfig_fetches_unless_stored_witness :
  let loc := mkLocation "https:" "localhost:1443" in
  let w0 := constructor loc in
  let w1 := run w0 [CallRequestDevice (JStr "cvd-1"); Reply 0 (Json (JNum 7))] in
  let w2 := run w0 [CallRequestDevice (JStr "cvd-1");
                    CallRequestDevice (JStr "cvd-2")] in
  let get := mkFetch (httpUrl loc "infra_config") GET None in
  let post := mkFetch (httpUrl loc "polled_connections") POST
                      (Some {[ "device_id" := JStr "cvd-2" ]}) in
  let w3 := step w2 (Reply 1 (Json (JNum 8))) in
  let w4 := step w3 (Reply 0 (Json (JNum 7))) in
  let answer : jobject :=
    {[ "connection_id" := JStr "c2"; "device_info" := JStr "tablet" ]} in
  (is_undefined (config (this w0)) = true
   ∧ getConfig (JStr "cvd-1") 0 w0 =
       (await_fetch (mkFetch (configUrl (this w0)) GET None)
                    (in_getConfig (JStr "cvd-1") 0) w0, None))
  ∧ (is_undefined (config (this w1)) = false
     ∧ getConfig (JStr "cvd-1") 1 w1 = (w1, Some (config (this w1))))
  ∧ (requests w2 !! 1%nat =
       Some (mkRequest get (in_getConfig (JStr "cvd-2") 1) None)
     ∧ config (this w3) = JNum 8)
  ∧ (requests w4 !! 2%nat = Some (mkRequest post (in_requestDevice (JNum 8) 1) None)
     ∧ promises w4 !! 1%nat = Some Pending
     ∧ config (this w4) = JNum 7
     ∧ promises (step w4 (Reply 2 (Json (JObj answer)))) !! 1%nat =
         Some (Fulfilled (JObj {[ "deviceInfo" := JStr "tablet";
                                  "infraConfig" := JNum 8 ]})))
  ∧ config (this (run w2 [Reply 0 (Json (JNum 7)); Reply 1 (Json (JNum 8))])) =
      JNum 8
  ∧ config (this (run w2 [Reply 1 (Json (JNum 8)); Reply 0 (Json (JNum 7))])) =
      JNum 7.
Proof.
  intros loc w0 w1 w2 get post w3 w4 answer.
  assert (is_undefined (config (this w0)) = true) as H0 by reflexivity.
  assert (is_undefined (config (this w1)) = false) as H1 by reflexivity.
  assert (requests w2 !! 1%nat =
            Some (mkRequest get (in_getConfig (JStr "cvd-2") 1) None)) as H2
    by (vm_compute; reflexivity).
  assert (requests w4 !! 2%nat =
            Some (mkRequest post (in_requestDevice (JNum 8) 1) None)) as H3
    by (vm_compute; reflexivity).
  assert (promises w4 !! 1%nat = Some Pending) as H4 by (vm_compute; reflexivity).
  destruct getConfig_fetches_unless_stored as (T1 & T2 & _ & T4 & T5 & T6).
  split; [exact (conj H0 (T1 w0 (JStr "cvd-1") 0%nat H0))|].
  split; [exact (conj H1 (T2 w1 (JStr "cvd-1") 1%nat H1))|].
  split; [exact (conj H2 (proj1 (T4 w2 1%nat get (JStr "cvd-2") (JNum 8) 1%nat H2)))|].
  split.
  - refine (conj H3 (conj H4 (conj _ _))); [vm_compute; reflexivity|].
    exact (proj1 (T5 w4 2%nat post (JNum 8) 1%nat answer H3 H4)).
  - destruct (T6 w0 (JStr "cvd-1") (JStr "cvd-2") (JNum 7) (JNum 8) H0)
      as (_ & _ & Hlast & _ & Hfirst).
    exact (conj Hlast Hfirst).
Defined.

(** C7, as stated, fails for the websocket connector: a second 'config'
    message replaces the configuration stored by the first. *)
Lemma second_config_message_replaces_first :
  let first : jobject :=
    {[ "message_type" := JStr "config"; "ice_servers" := JStr "stun:a" ]} in
  let second : jobject :=
    {[ "message_type" := JStr "config"; "ice_servers" := JStr "stun:b" ]} in
  let w1 := WebsocketConnector.run WebsocketConnector.constructor
              [WebsocketConnector.Message first] in
  let w2 := WebsocketConnector.run w1 [WebsocketConnector.Message second] in
  WebsocketConnector.infraConfig
    (WebsocketConnector.futures (WebsocketConnector.this w1)) = Some (JObj first)
  ∧ WebsocketConnector.infraConfig
      (WebsocketConnector.futures (WebsocketConnector.this w2)) = Some (JObj second)
  ∧ prop first "ice_servers" ≠ prop second "ice_servers".
Proof. repeat split. vm_compute. discriminate. Qed.

Lemma websocket_step_keeps_infraConfig (w : WebsocketConnector.World)
      (i : WebsocketConnector.input) :
  (∀ m, i = WebsocketConnector.Message m →
        truthy (prop m "error") = true
        ∨ WebsocketConnector.switch (prop m "message_type")
          ≠ WebsocketConnector.case_config) →
  WebsocketConnector.infraConfig
    (WebsocketConnector.futures
       (WebsocketConnector.this (WebsocketConnector.step w i))) =
  WebsocketConnector.infraConfig
    (WebsocketConnector.futures (WebsocketConnector.this w)).
Proof.
  intros Hi. destruct i as [cb|d|msg|message]; [done| | |].
  - cbn [WebsocketConnector.step]. unfold WebsocketConnector.requestDevice,
      WebsocketConnector.wsSendJson. cbn.
    by destruct (WebsocketConnector.readyState w).
  - cbn [WebsocketConnector.step]. unfold WebsocketConnector.sendToDevice,
      WebsocketConnector.wsSendJson.
    by destruct (WebsocketConnector.readyState w).
  - cbn [WebsocketConnector.step].
    unfold WebsocketConnector.onWebsocketMessage,
      WebsocketConnector.call_onConnectionFailed.
    cbn [WebsocketConnector.this WebsocketConnector.emit
           WebsocketConnector.futures].
    destruct (Hi message eq_refl) as [Herr|Hcase].
    + rewrite Herr.
      by destruct (WebsocketConnector.onConnectionFailed
                     (WebsocketConnector.futures (WebsocketConnector.this w)))
        eqn:E.
    + destruct (truthy (prop message "error")).
      * by destruct (WebsocketConnector.onConnectionFailed
                       (WebsocketConnector.futures (WebsocketConnector.this w)))
          eqn:E.
      * destruct (WebsocketConnector.switch (prop message "message_type"));
          try done.
        -- by destruct (WebsocketConnector.onDeviceAvailable
                          (WebsocketConnector.futures (WebsocketConnector.this w)))
             eqn:E.
        -- by destruct (WebsocketConnector.onConnectionFailed
                          (WebsocketConnector.futures (WebsocketConnector.this w)))
             eqn:E.
Qed.

(** C7, amended.  Polling connector: once a configuration is stored and no
    GET of it is in flight, whatever happens later leaves the stored value
    as it is and makes no further GET; and a connector on which
    [requestDevice] is called at most once makes at most one GET in its
    life.  Websocket connector: the stored configuration is the latest
    'config' message; every other message and every operation leaves it
    as it is, and each 'config' message without error replaces it. *)
Theorem config_stored_value :
  (∀ (w : World) (c : json) (inputs : list input),
      config_settled c w →
      config (this (run w inputs)) = c
      ∧ length (config_fetches (run w inputs)) = length (config_fetches w))
  ∧ (∀ (loc : Location) (inputs : list input),
      (length (List.filter is_CallRequestDevice inputs) ≤ 1)%nat →
      (length (config_fetches (run (constructor loc) inputs)) ≤ 1)%nat)
  ∧ (∀ (w : WebsocketConnector.World) (i : WebsocketConnector.input),
      (∀ m, i = WebsocketConnector.Message m →
            truthy (prop m "error") = true
            ∨ WebsocketConnector.switch (prop m "message_type")
              ≠ WebsocketConnector.case_config) →
      WebsocketConnector.infraConfig
        (WebsocketConnector.futures
           (WebsocketConnector.this (WebsocketConnector.step w i))) =
      WebsocketConnector.infraConfig
        (WebsocketConnector.futures (WebsocketConnector.this w)))
  ∧ (∀ (w : WebsocketConnector.World) (m : jobject),
      truthy (prop m "error") = false →
      prop m "message_type" = JStr "config" →
      WebsocketConnector.infraConfig
        (WebsocketConnector.futures
           (WebsocketConnector.this
              (WebsocketConnector.step w (WebsocketConnector.Message m)))) =
      Some (JObj m)).
Proof.
  split; [|split; [|split]].
  - intros w c inputs Hw.
    destruct (config_settled_run c inputs w Hw) as [[Hc _] Hn]. done.
  - intros loc inputs Hcalls.
    etrans; [apply config_fetches_run|]. cbn. lia.
  - exact websocket_step_keeps_infraConfig.
  - intros w m Herr Htype. cbn [WebsocketConnector.step].
    by rewrite (onWebsocketMessage_config w m Herr Htype).
Qed.

Lemma config_stored_value_witness :
  let loc := mkLocation "https:" "localhost:1443" in
  let response : jobject :=
    {[ "connection_id" := JStr "c1"; "device_info" := JNull ]} in
  let w := run (constructor loc)
               [CallRequestDevice (JStr "cvd-1"); Reply 0 (Json (JNum 7))] in
  let later := [Reply 1 (Json (JObj response)); CallSendToDevice (JStr "offer");
                CallRequestDevice (JStr "cvd-1"); Timeout 0] in
  let once := [CallOnDeviceMsg (Listener 1); CallRequestDevice (JStr "cvd-1");
               Reply 0 (Json (JNum 7)); Reply 1 (Json (JObj response))] in
  let cfg : jobject :=
    {[ "message_type" := JStr "config"; "ice_servers" := JStr "stun:a" ]} in
  let msg : jobject :=
    {[ "message_type" := JStr "device_msg"; "payload" := JStr "offer" ]} in
  let ws := WebsocketConnector.step WebsocketConnector.constructor
              (WebsocketConnector.Message cfg) in
  (config_settled (JNum 7) w
   ∧ config (this (run w later)) = JNum 7
   ∧ length (config_fetches (run w later)) = length (config_fetches w))
  ∧ ((length (List.filter is_CallRequestDevice once) ≤ 1)%nat
     ∧ (length (config_fetches (run (constructor loc) once)) ≤ 1)%nat)
  ∧ (WebsocketConnector.infraConfig
       (WebsocketConnector.futures
          (WebsocketConnector.this
             (WebsocketConnector.step ws (WebsocketConnector.Message msg)))) =
     WebsocketConnector.infraConfig
       (WebsocketConnector.futures (WebsocketConnector.this ws)))
  ∧ (truthy (prop cfg "error") = false
     ∧ prop cfg "message_type" = JStr "config"
     ∧ WebsocketConnector.infraConfig
         (WebsocketConnector.futures (WebsocketConnector.this ws)) =
       Some (JObj cfg)).
Proof.
  intros loc response w later once cfg msg ws.
  assert (config_settled (JNum 7) w) as H1 by (repeat split; reflexivity).
  assert ((length (List.filter is_CallRequestDevice once) ≤ 1)%nat) as H2
    by (vm_compute; constructor).
  assert (∀ m, WebsocketConnector.Message msg = WebsocketConnector.Message m →
               truthy (prop m "error") = true
               ∨ WebsocketConnector.switch (prop m "message_type")
                 ≠ WebsocketConnector.case_config) as H3.
  { intros m [= <-]. right. vm_compute. discriminate. }
  assert (truthy (prop cfg "error") = false) as H4 by reflexivity.
  assert (prop cfg "message_type" = JStr "config") as H5 by reflexivity.
  split; [|split; [|split]].
  - exact (conj H1 (proj1 config_stored_value w (JNum 7) later H1)).
  - exact (conj H2 (proj1 (proj2 config_stored_value) loc once H2)).
  - exact (proj1 (proj2 (proj2 config_stored_value)) ws
             (WebsocketConnector.Message msg) H3).
  - exact (conj H4 (conj H5
             (proj2 (proj2 (proj2 config_stored_value))
                WebsocketConnector.constructor cfg H4 H5))).
Defined.

(** C6: what the code does when [sendToDevice] is called on a new
    connector, before [requestDevice].  The websocket connector writes the
    'forward' frame to the socket and the promise is fulfilled with
    [undefined].  The polling connector posts to the URL "undefined",
    [#forwardUrl] being unset, and the promise is settled by whatever
    answers there: fulfilled if the answer is JSON. *)
Theorem sendToDevice_before_requestDevice (msg : json) :
  (let '(w, p) := WebsocketConnector.sendToDevice msg
                    WebsocketConnector.constructor in
   WebsocketConnector.promises w !! p = Some (Fulfilled JUndefined)
   ∧ WebsocketConnector.effects w =
       [WsSend {[ "message_type" := JStr "forward"; "payload" := msg ]}])
  ∧ (∀ (loc : Location) (v : json),
      let '(w, p) := sendToDevice msg (constructor loc) in
      promises w !! p = Some Pending
      ∧ (λ r, (url (fetch r), http_method (fetch r))) <$> requests w =
          [("undefined", POST)]
      ∧ promises (step w (Reply 0 (Json v))) !! p = Some (Fulfilled v)).
Proof. split; [|intros loc v]; repeat split. Qed.

End configuration.

(** * Runs of the websocket connector *)

Lemma settle_lookup_ne (p q : nat) (s : promise_state) (ps : list promise_state) :
  p ≠ q → settle q s ps !! p = ps !! p.
Proof.
  intros Hne. unfold settle. destruct (ps !! q) as [[]|]; try done.
  by apply list_lookup_insert_ne.
Qed.

Lemma settle_lookup_settled (p q : nat) (s st : promise_state)
      (ps : list promise_state) :
  ps !! p = Some st → st ≠ Pending → settle q s ps !! p = Some st.
Proof.
  intros Hp Hst. destruct (decide (p = q)) as [<-|Hne].
  - unfold settle. rewrite Hp. by destruct st.
  - by rewrite settle_lookup_ne.
Qed.

Section websocket_runs.
Import WebsocketConnector WebsocketRun.

Lemma sent_app (es1 es2 : list effect) : sent (es1 ++ es2) = sent es1 ++ sent es2.
Proof.
  induction es1 as [|[] es1 IH]; simpl; [done | | by f_equal | ]; exact IH.
Qed.

Lemma sent_invoke (cb : callback) (payload : json) : sent (invoke cb payload) = [].
Proof. by destruct cb. Qed.

Lemma step_readyState (w : World) (i : input) : readyState (step w i) = readyState w.
Proof.
  destruct i as [cb|d|msg|message]; cbn [step]; try done.
  - unfold requestDevice, wsSendJson. cbn [readyState set_futures set_promises].
    by destruct (readyState w) eqn:E.
  - unfold sendToDevice, wsSendJson. by destruct (readyState w) eqn:E.
  - unfold onWebsocketMessage, call_onConnectionFailed. cbn [this emit futures].
    destruct (truthy (prop message "error")).
    + by destruct (onConnectionFailed (futures (this w))) eqn:E.
    + destruct (switch (prop message "message_type")); try done.
      * by destruct (onDeviceAvailable (futures (this w))) eqn:E.
      * by destruct (onConnectionFailed (futures (this w))) eqn:E.
Qed.

(** The effects and the callback after one input. *)
Lemma step_effects (w : World) (i : input) :
  calls (effects (step w i)) =
    calls (effects w) ++ deliveries (onDeviceMsgCb (this w)) [i]
  ∧ onDeviceMsgCb (this (step w i)) =
      match i with CallOnDeviceMsg cb => cb | _ => onDeviceMsgCb (this w) end
  ∧ (readyState w = OPEN → sent (effects (step w i)) = sent (effects w) ++ frame_of i).
Proof.
  destruct i as [cb|d|msg|message]; cbn [step deliveries frame_of].
  - cbn. by rewrite !app_nil_r.
  - unfold requestDevice, wsSendJson. cbn [readyState set_futures set_promises].
    destruct (readyState w); cbn; rewrite ?app_nil_r, ?calls_app, ?sent_app; cbn;
      rewrite ?app_nil_r; done.
  - unfold sendToDevice, wsSendJson.
    destruct (readyState w); cbn; rewrite ?app_nil_r, ?calls_app, ?sent_app; cbn;
      rewrite ?app_nil_r; done.
  - unfold onWebsocketMessage, call_onConnectionFailed. cbn [this emit futures].
    destruct (truthy (prop message "error")); cbn [negb andb].
    + destruct (onConnectionFailed (futures (this w))) eqn:E; cbn;
        rewrite ?calls_app, ?sent_app; cbn; rewrite ?app_nil_r; done.
    + destruct (switch (prop message "message_type")); cbn [is_device_msg].
      * cbn. by rewrite !app_nil_r.
      * destruct (onDeviceAvailable (futures (this w))) eqn:E; cbn;
          rewrite ?calls_app, ?sent_app; cbn; rewrite ?app_nil_r; done.
      * cbn. rewrite calls_app, calls_invoke, sent_app, sent_invoke.
        by rewrite app_nil_r.
      * destruct (onConnectionFailed (futures (this w))) eqn:E; cbn;
          rewrite ?calls_app, ?sent_app; cbn; rewrite ?app_nil_r; done.
Qed.

Lemma deliveries_cons (cb : callback) (i : input) (inputs : list input) :
  deliveries cb (i :: inputs) =
    deliveries cb [i] ++
      deliveries (match i with CallOnDeviceMsg cb' => cb' | _ => cb end) inputs.
Proof.
  destruct i as [cb'|d|msg|message]; cbn; try done.
  by destruct (negb (truthy (prop message "error"))
               && is_device_msg (switch (prop message "message_type"))).
Qed.

(** The registered function stays until [onDeviceMsg] is called again. *)
Lemma run_keeps_callback (inputs : list input) (w : World) :
  no_registration inputs = true →
  onDeviceMsgCb (this (run w inputs)) = onDeviceMsgCb (this w).
Proof.
  revert w. induction inputs as [|i inputs IH]; intros w H; [done|].
  cbn in H. apply andb_prop in H as [Hi H].
  cbn [run fold_left]. fold (run (step w i) inputs).
  rewrite (IH _ H). destruct (step_effects w i) as (_ & Hcb & _).
  rewrite Hcb. by destruct i.
Qed.

Lemma run_snoc (w : World) (inputs : list input) (i : input) :
  run w (inputs ++ [i]) = step (run w inputs) i.
Proof. unfold run. by rewrite fold_left_app. Qed.

Lemma onWebsocketMessage_device_msg (w : World) (message : jobject) :
  truthy (prop message "error") = false →
  prop message "message_type" = JStr "device_msg" →
  onWebsocketMessage message w =
    (emit (invoke (onDeviceMsgCb (this w)) (prop message "payload")) w, Normal).
Proof.
  intros Herr Htype. unfold onWebsocketMessage. by rewrite Herr, Htype.
Qed.

(** C5: a 'device_msg' message without error calls the registered
    device-message callback exactly once, with [message.payload] as it is.
    The callback is the function given to the latest [onDeviceMsg], which
    stores it and changes nothing else; whatever happened since that call
    (requests made, their promise pending or settled, other messages) the
    message is handed to that function, and to the initial function, which
    only logs, if [onDeviceMsg] was never called.  Nothing else of the
    connector changes and no request state is consulted. *)
Theorem device_msg_calls_callback_once :
  (∀ (cb : callback) (w : World),
      onDeviceMsgCb (this (onDeviceMsg cb w)) = cb
      ∧ futures (this (onDeviceMsg cb w)) = futures (this w)
      ∧ readyState (onDeviceMsg cb w) = readyState w
      ∧ promises (onDeviceMsg cb w) = promises w
      ∧ effects (onDeviceMsg cb w) = effects w)
  ∧ (∀ (cb : callback) (w : World) (message : jobject),
      truthy (prop message "error") = false →
      prop message "message_type" = JStr "device_msg" →
      onWebsocketMessage message (onDeviceMsg cb w) =
        (emit (invoke cb (prop message "payload")) (onDeviceMsg cb w), Normal)
      ∧ calls (effects (fst (onWebsocketMessage message (onDeviceMsg cb w)))) =
          calls (effects w) ++ [(cb, prop message "payload")])
  ∧ (∀ (cb : callback) (w : World) (inputs : list input) (message : jobject),
      no_registration inputs = true →
      truthy (prop message "error") = false →
      prop message "message_type" = JStr "device_msg" →
      let before := run w (CallOnDeviceMsg cb :: inputs) in
      let after := run w (CallOnDeviceMsg cb :: inputs ++ [Message message]) in
      after = emit (invoke cb (prop message "payload")) before
      ∧ calls (effects after) =
          calls (effects before) ++ [(cb, prop message "payload")])
  ∧ (∀ (inputs : list input) (message : jobject),
      no_registration inputs = true →
      truthy (prop message "error") = false →
      prop message "message_type" = JStr "device_msg" →
      let before := run constructor inputs in
      let after := run constructor (inputs ++ [Message message]) in
      after = emit (invoke NoListener (prop message "payload")) before
      ∧ calls (effects after) =
          calls (effects before) ++ [(NoListener, prop message "payload")]).
Proof.
  split; [done|]. split; [|split].
  - intros cb w message Herr Htype.
    rewrite (onWebsocketMessage_device_msg _ _ Herr Htype).
    split; [done|]. cbn. by rewrite calls_app, calls_invoke.
  - intros cb w inputs message Hreg Herr Htype before after.
    assert (after = emit (invoke cb (prop message "payload")) before) as ->.
    { subst after before.
      change (CallOnDeviceMsg cb :: inputs ++ [Message message])
        with ((CallOnDeviceMsg cb :: inputs) ++ [Message message]).
      rewrite run_snoc. cbn [step].
      rewrite (onWebsocketMessage_device_msg _ _ Herr Htype). cbn [fst].
      cbn [run fold_left step]. fold (run (onDeviceMsg cb w) inputs).
      by rewrite (run_keeps_callback inputs _ Hreg). }
    split; [done|]. cbn. by rewrite calls_app, calls_invoke.
  - intros inputs message Hreg Herr Htype before after.
    assert (after = emit (invoke NoListener (prop message "payload")) before) as ->.
    { subst after before. rewrite run_snoc. cbn [step].
      rewrite (onWebsocketMessage_device_msg _ _ Herr Htype). cbn [fst].
      by rewrite (run_keeps_callback inputs _ Hreg). }
    split; [done|]. cbn. by rewrite calls_app.
Qed.

Lemma device_msg_calls_callback_once_witness :
  let message : jobject :=
    {[ "message_type" := JStr "device_msg"; "payload" := JStr "offer" ]} in
  let config : jobject :=
    {[ "message_type" := JStr "config"; "ice_servers" := JArr [] ]} in
  let inputs := [CallRequestDevice (JStr "cvd-1"); Message config] in
  let before :=
    run constructor
        (CallOnDeviceMsg (Listener 1) :: CallOnDeviceMsg (Listener 2) :: inputs) in
  let after :=
    run constructor
        (CallOnDeviceMsg (Listener 1) :: CallOnDeviceMsg (Listener 2) ::
         inputs ++ [Message message]) in
  no_registration inputs = true
  ∧ truthy (prop message "error") = false
  ∧ prop message "message_type" = JStr "device_msg"
  ∧ promises before = [Pending]
  ∧ after = emit (invoke (Listener 2) (JStr "offer")) before
  ∧ calls (effects after) = calls (effects before) ++ [(Listener 2, JStr "offer")].
Proof.
  intros message config inputs before after.
  assert (no_registration inputs = true) as H0 by reflexivity.
  assert (truthy (prop message "error") = false) as H1
    by (by apply absent_is_falsy).
  assert (prop message "message_type" = JStr "device_msg") as H2 by reflexivity.
  refine (conj H0 (conj H1 (conj H2 (conj eq_refl _)))).
  exact (proj1 (proj2 (proj2 device_msg_calls_callback_once))
           (Listener 2) (onDeviceMsg (Listener 1) constructor) inputs message
           H0 H1 H2).
Defined.

(** X1: in every run of the websocket connector the device-message callback
    is called once for each 'device_msg' message without error, in the
    order of arrival, with the payload of the message and on the function
    registered when the message arrives; nothing else calls it, and
    messages that arrived under an earlier registration are not delivered
    again. *)
Theorem websocket_callback_trace (w : World) (inputs : list input) :
  calls (effects (run w inputs)) =
    calls (effects w) ++ deliveries (onDeviceMsgCb (this w)) inputs.
Proof.
  revert w. induction inputs as [|i inputs IH]; intros w.
  - cbn. by rewrite app_nil_r.
  - cbn [run fold_left]. fold (run (step w i) inputs).
    destruct (step_effects w i) as (Hcalls & Hcb & _).
    rewrite IH, Hcalls, Hcb, (deliveries_cons (onDeviceMsgCb (this w)) i inputs).
    by rewrite app_assoc.
Qed.

(** X2: on an open socket the frames written in a run are, in the order of
    the calls, one 'connect' frame with the device id for each
    [requestDevice] and one 'forward' frame with the payload for each
    [sendToDevice]; the handling of inbound messages writes nothing. *)
Theorem websocket_frames_sent (w : World) (inputs : list input) :
  readyState w = OPEN →
  sent (effects (run w inputs)) = sent (effects w) ++ flat_map frame_of inputs.
Proof.
  revert w. induction inputs as [|i inputs IH]; intros w Hopen.
  - cbn. by rewrite app_nil_r.
  - cbn [run fold_left flat_map]. fold (run (step w i) inputs).
    destruct (step_effects w i) as (_ & _ & Hsent).
    rewrite IH by (by rewrite step_readyState).
    rewrite Hsent by done. by rewrite app_assoc.
Qed.

Lemma websocket_frames_sent_witness :
  let inputs :=
    [CallRequestDevice (JStr "cvd-1");
     Message {[ "message_type" := JStr "device_msg"; "payload" := JStr "offer" ]};
     CallSendToDevice (JStr "answer")] in
  readyState constructor = OPEN
  ∧ sent (effects (run constructor inputs)) =
      sent (effects constructor) ++ flat_map frame_of inputs.
Proof.
  intros inputs.
  assert (readyState constructor = OPEN) as H1 by (vm_compute; reflexivity).
  exact (conj H1 (websocket_frames_sent constructor inputs H1)).
Defined.


Lemma websocket_step_settled (w : World) (i : input) (p : nat) (st : promise_state) :
  promises w !! p = Some st → st ≠ Pending →
  promises (step w i) !! p = Some st.
Proof.
  intros Hp Hst. destruct i as [cb|d|msg|message]; cbn [step].
  - done.
  - unfold requestDevice, wsSendJson. cbn [readyState set_futures set_promises].
    destruct (readyState w) eqn:E; cbn; by apply lookup_app_l_Some.
  - unfold sendToDevice, wsSendJson.
    destruct (readyState w) eqn:E; cbn; by apply lookup_app_l_Some.
  - unfold onWebsocketMessage, call_onConnectionFailed. cbn [this emit futures].
    destruct (truthy (prop message "error")).
    + destruct (onConnectionFailed (futures (this w))) eqn:E; cbn; [|done].
      by apply settle_lookup_settled.
    + destruct (switch (prop message "message_type")); try done.
      * destruct (onDeviceAvailable (futures (this w))) eqn:E; cbn; [|done].
        by apply settle_lookup_settled.
      * destruct (onConnectionFailed (futures (this w))) eqn:E; cbn; [|done].
        by apply settle_lookup_settled.
Qed.

Lemma websocket_run_settled (inputs : list input) (w : World) (p : nat) (st : promise_state) :
  promises w !! p = Some st → st ≠ Pending →
  promises (run w inputs) !! p = Some st.
Proof.
  revert w. induction inputs as [|i inputs IH]; intros w Hp Hst; [done|].
  cbn [run fold_left]. fold (run (step w i) inputs).
  apply IH; [|done]. by apply websocket_step_settled.
Qed.

Lemma step_orphaned (w : World) (i : input) (p : nat) :
  orphaned p w → orphaned p (step w i).
Proof.
  intros (Hp & Ha & Hf). unfold orphaned.
  pose proof (lookup_lt_Some _ _ _ Hp) as Hlt.
  destruct i as [cb|d|msg|message]; cbn [step].
  - done.
  - unfold requestDevice, wsSendJson. cbn [readyState set_futures set_promises].
    destruct (readyState w) eqn:E; cbn;
      (split; [by apply lookup_app_l_Some|]); split; intros [= ?]; lia.
  - unfold sendToDevice, wsSendJson.
    destruct (readyState w) eqn:E; cbn;
      (split; [by apply lookup_app_l_Some|done]).
  - unfold onWebsocketMessage, call_onConnectionFailed. cbn [this emit futures].
    destruct (truthy (prop message "error")).
    + destruct (onConnectionFailed (futures (this w))) as [q|] eqn:E; cbn;
        rewrite ?E; (split; [|done]); [|done].
      rewrite settle_lookup_ne; [done|congruence].
    + destruct (switch (prop message "message_type")); try done.
      * destruct (onDeviceAvailable (futures (this w))) as [q|] eqn:E; cbn;
          rewrite ?E; (split; [|done]); [|done].
        rewrite settle_lookup_ne; [done|congruence].
      * destruct (onConnectionFailed (futures (this w))) as [q|] eqn:E; cbn;
          rewrite ?E; (split; [|done]); [|done].
        rewrite settle_lookup_ne; [done|congruence].
Qed.

Lemma run_orphaned (inputs : list input) (w : World) (p : nat) :
  orphaned p w → orphaned p (run w inputs).
Proof.
  revert w. induction inputs as [|i inputs IH]; intros w Hw; [done|].
  cbn [run fold_left]. fold (run (step w i) inputs).
  by apply IH, step_orphaned.
Qed.

(** X6: [requestDevice] overwrites both continuations in [#futures], so a
    promise that is pending when [requestDevice] is called (the promise of
    an earlier [requestDevice]) stays pending whatever happens afterwards. *)
Theorem second_requestDevice_orphans_first (w : World) (deviceId : json) (p : nat) (inputs : list input) :
  promises w !! p = Some Pending →
  promises (run (fst (requestDevice deviceId w)) inputs) !! p = Some Pending.
Proof.
  intros Hp. apply run_orphaned.
  pose proof (lookup_lt_Some _ _ _ Hp) as Hlt.
  unfold orphaned, requestDevice, wsSendJson.
  cbn [readyState set_futures set_promises].
  destruct (readyState w) eqn:E; cbn;
    (split; [by apply lookup_app_l_Some|]); split; intros [= ?]; lia.
Qed.

Lemma second_requestDevice_orphans_first_witness :
  let w := fst (requestDevice (JStr "cvd-1") constructor) in
  let info : jobject :=
    {[ "message_type" := JStr "device_info"; "device_info" := JNull ]} in
  promises w !! 0%nat = Some Pending
  ∧ promises (run (fst (requestDevice (JStr "cvd-2") w)) [Message info]) !! 0%nat =
      Some Pending.
Proof.
  intros w info.
  assert (promises w !! 0%nat = Some Pending) as H1 by (vm_compute; reflexivity).
  exact (conj H1 (second_requestDevice_orphans_first w (JStr "cvd-2") 0
                    [Message info] H1)).
Defined.




End websocket_runs.

(** * Runs of the polling connector *)

Section polling_runs.
Import PollingConnector PollingRun.

(** What a step leaves as it is. *)
Lemma startPolling_keeps (w : World) :
  requests (startPolling w) = requests w
  ∧ promises (startPolling w) = promises w
  ∧ effects (startPolling w) = effects w
  ∧ polls (startPolling w) = polls w
  ∧ messagesReceived (this (startPolling w)) = messagesReceived (this w)
  ∧ forwardUrl (this (startPolling w)) = forwardUrl (this w)
  ∧ location (startPolling w) = location w
  ∧ configUrl (this (startPolling w)) = configUrl (this w)
  ∧ connectUrl (this (startPolling w)) = connectUrl (this w).
Proof. unfold startPolling. by destruct (pollerSchedule (this w)). Qed.

Lemma step_messagesReceived (w : World) (i : input) :
  messagesReceived (this w) ≤ messagesReceived (this (step w i)).
Proof.
  destruct i as [cb|deviceId|msg|handle|request r|n r]; cbn [step].
  - done.
  - unfold requestDevice, getConfig, new_promise. cbn [this set_promises].
    by destruct (is_undefined (config (this w))).
  - done.
  - by destruct (timers w !! handle) as [[d c [|]]|].
  - destruct (requests w !! request) as [[f k [a|]]|]; try done.
    destruct k as [deviceId p|cfg p|p], r as [e|v]; cbn [resume]; try done.
    unfold requestDevice_resume.
    destruct (prop_of v "connection_id"), (prop_of v "device_info"); try done.
    cbn. by rewrite (proj1 (proj2 (proj2 (proj2 (proj2 (startPolling_keeps _)))))).
  - destruct (polls w !! n) as [[f c [a|]]|]; try done.
    destruct r as [e|messages]; [done|].
    unfold pollerRoutine_resume. rewrite for_messages. cbn. lia.
Qed.

(** X10: as long as the messages endpoint answers its polls with arrays, or
    fails, [#messagesReceived] never decreases, from any state and under
    any sequence of calls, timers, replies and poll answers: the only
    assignment adds the length of the array of a poll.  (An answer that is
    no array is outside [PollReply]; the code adds its [length] property
    all the same.) *)
Theorem poll_cursor_never_decreases (w : World) (inputs : list input) :
  messagesReceived (this w) ≤ messagesReceived (this (run w inputs)).
Proof.
  revert w. induction inputs as [|i inputs IH]; intros w; [done|].
  cbn [run fold_left]. fold (run (step w i) inputs).
  etrans; [apply step_messagesReceived|apply IH].
Qed.

Lemma next_delay_bounds (d : Z) (messages : list jobject) :
  1000 ≤ d ≤ 60000 → 1000 ≤ next_delay d messages ≤ 60000.
Proof. intros Hd. destruct messages; cbn; lia. Qed.

Lemma delays_from_bounds (ps : list Poll) (d : Z) :
  1000 ≤ d ≤ 60000 → Forall (λ x, 1000 ≤ x ≤ 60000) (delays_from d ps).
Proof.
  revert d. induction ps as [|q ps IH]; intros d Hd; cbn.
  - constructor; [done|constructor].
  - constructor; [done|]. by apply IH, next_delay_bounds.
Qed.

(** X11: every timer the polling connector sets has a delay between 1000
    and 60000 milliseconds. *)
Theorem poll_delay_bounds (loc : Location) (inputs : list input) (handle : nat) (t : Timer) :
  timers (run (constructor loc) inputs) !! handle = Some t →
  1000 ≤ delay t ≤ 60000.
Proof.
  intros Ht.
  apply (timer_delay_lookup loc) in Ht; [|apply reachable_invariant].
  assert (1000 ≤ 1000 ≤ 60000) as Hfirst by lia.
  by eapply (Forall_lookup_1 _ _ _ _ (delays_from_bounds _ 1000 Hfirst)) in Ht.
Qed.

Lemma poll_delay_bounds_witness :
  let loc := mkLocation "https:" "localhost:1443" in
  let response : jobject :=
    {[ "connection_id" := JStr "c1"; "device_info" := JStr "phone" ]} in
  let inputs :=
    [CallRequestDevice (JStr "cvd-1"); Reply 0 (Json JNull);
     Reply 1 (Json (JObj response)); Timeout 0; PollReply 0 (inr [])] in
  timers (run (constructor loc) inputs) !! 1%nat = Some (mkTimer 2000 0 true)
  ∧ 1000 ≤ delay (mkTimer 2000 0 true) ≤ 60000.
Proof.
  intros loc response inputs.
  assert (timers (run (constructor loc) inputs) !! 1%nat =
            Some (mkTimer 2000 0 true)) as H1 by (vm_compute; reflexivity).
  exact (conj H1 (poll_delay_bounds loc inputs 1 _ H1)).
Defined.


Lemma delays_from_last_is_Some (ps : list Poll) (d : Z) :
  ∃ x, last (delays_from d ps) = Some x.
Proof.
  destruct (last (delays_from d ps)) eqn:E; [eauto|].
  apply last_None in E. apply (f_equal length) in E.
  by rewrite delays_from_length in E.
Qed.

Lemma delays_from_app_lookup (ps qs : list Poll) (d : Z) (k : nat) :
  delays_from d (ps ++ qs) !! (length ps + k)%nat =
    delays_from (default d (last (delays_from d ps))) qs !! k.
Proof.
  revert d. induction ps as [|q ps IH]; intros d; [done|].
  cbn [app length delays_from]. rewrite Nat.add_succ_l. cbn [lookup list_lookup].
  rewrite IH. f_equal. f_equal.
  destruct (delays_from_last_is_Some ps (next_delay d (batch q))) as [x Hx].
  destruct (delays_from (next_delay d (batch q)) ps) as [|y l] eqn:E; [done|].
  by rewrite last_cons_cons, Hx.
Qed.

Lemma delays_from_minimum (ps : list Poll) :
  match last ps with None => true | Some q => brought_messages q end = true →
  default 1000 (last (delays_from 1000 ps)) = 1000.
Proof.
  destruct ps as [|q ps _] using rev_ind; [done|].
  rewrite last_snoc, delays_from_snoc, last_snoc. intros Hq. cbn.
  unfold brought_messages in Hq. unfold batch.
  by destruct (answer q) as [[e|[|m messages]]|].
Qed.

Lemma delays_from_empty (es : list Poll) (d : Z) :
  0 ≤ d ≤ 60000 →
  forallb is_empty_batch es = true →
  delays_from d es !! length es =
    Some (Z.min 60000 (d * 2 ^ Z.of_nat (length es))).
Proof.
  revert d. induction es as [|q es IH]; intros d Hd Hes.
  - cbn. f_equal. lia.
  - cbn in Hes. apply andb_prop in Hes as [Hq Hes].
    cbn [length delays_from lookup list_lookup].
    assert (batch q = []) as ->.
    { unfold is_empty_batch in Hq. unfold batch.
      by destruct (answer q) as [[e|[|m messages]]|]. }
    cbn [next_delay]. rewrite IH by (done || lia). f_equal.
    rewrite Nat2Z.inj_succ, Z.pow_succ_r by lia.
    assert (1 ≤ 2 ^ Z.of_nat (length es)) by (apply Z.pow_le_mono_r with (b := 0); lia).
    nia.
Qed.

(** X12: after [k] empty polls in a row, counted from the start of the loop
    or from the last poll that brought messages, the timer set for the next
    poll has delay [min 60000 (1000 * 2^k)]. *)
Theorem backoff_after_empty_polls (loc : Location) (inputs : list input) (ps es : list Poll) (t : Timer) :
  let w := run (constructor loc) inputs in
  polls w = ps ++ es →
  match last ps with None => true | Some q => brought_messages q end = true →
  forallb is_empty_batch es = true →
  timers w !! length (polls w) = Some t →
  delay t = Z.min 60000 (1000 * 2 ^ Z.of_nat (length es)).
Proof.
  intros w Hpolls Hps Hes Ht.
  apply (timer_delay_lookup loc) in Ht; [|apply reachable_invariant].
  rewrite Hpolls, length_app, delays_from_app_lookup in Ht.
  rewrite (delays_from_minimum ps Hps), delays_from_empty in Ht by (done || lia).
  congruence.
Qed.

Lemma backoff_after_empty_polls_witness :
  let loc := mkLocation "https:" "localhost:1443" in
  let response : jobject :=
    {[ "connection_id" := JStr "c1"; "device_info" := JStr "phone" ]} in
  let inputs :=
    [CallRequestDevice (JStr "cvd-1"); Reply 0 (Json JNull);
     Reply 1 (Json (JObj response));
     Timeout 0; PollReply 0 (inr [ {[ "payload" := JStr "offer" ]} ]);
     Timeout 1; PollReply 1 (inr []);
     Timeout 2; PollReply 2 (inr [])] in
  let w := run (constructor loc) inputs in
  let ps := take 1 (polls w) in
  let es := drop 1 (polls w) in
  polls w = ps ++ es
  ∧ match last ps with None => true | Some q => brought_messages q end = true
  ∧ forallb is_empty_batch es = true
  ∧ timers w !! length (polls w) = Some (mkTimer 4000 0 true)
  ∧ delay (mkTimer 4000 0 true) = Z.min 60000 (1000 * 2 ^ Z.of_nat (length es)).
Proof.
  intros loc response inputs w ps es.
  assert (polls w = ps ++ es) as H1 by (vm_compute; reflexivity).
  assert (match last ps with None => true | Some q => brought_messages q end = true)
    as H2 by (vm_compute; reflexivity).
  assert (forallb is_empty_batch es = true) as H3 by (vm_compute; reflexivity).
  assert (timers w !! length (polls w) = Some (mkTimer 4000 0 true)) as H4
    by (vm_compute; reflexivity).
  exact (conj H1 (conj H2 (conj H3 (conj H4
           (backoff_after_empty_polls loc inputs ps es _ H1 H2 H3 H4))))).
Defined.


Lemma halted_step (w : World) (i : input) :
  halted w →
  halted (step w i) ∧ timers (step w i) = timers w ∧ polls (step w i) = polls w.
Proof.
  intros (Hs & Ht & Hp). unfold halted.
  destruct i as [cb|deviceId|msg|handle|request r|n r]; cbn [step].
  - done.
  - unfold requestDevice, getConfig, new_promise. cbn [this set_promises].
    by destruct (is_undefined (config (this w))).
  - done.
  - destruct (timers w !! handle) as [[d c [|]]|] eqn:Hh; try done.
    apply (forallb_lookup _ _ _ _ Ht) in Hh. done.
  - destruct (requests w !! request) as [[f k [a|]]|]; try done.
    destruct k as [deviceId p|cfg p|p], r as [e|v]; cbn [resume]; try done.
    unfold requestDevice_resume.
    destruct (prop_of v "connection_id"), (prop_of v "device_info"); try done.
    by rewrite startPolling_again.
  - destruct (polls w !! n) as [[f c [a|]]|] eqn:Hn; try done.
    apply (forallb_lookup _ _ _ _ Hp) in Hn. done.
Qed.

Lemma halted_run (inputs : list input) (w : World) :
  halted w →
  halted (run w inputs)
  ∧ timers (run w inputs) = timers w ∧ polls (run w inputs) = polls w.
Proof.
  revert w. induction inputs as [|i inputs IH]; intros w Hw; [done|].
  cbn [run fold_left]. fold (run (step w i) inputs).
  destruct (halted_step w i Hw) as (Hw' & Ht & Hp).
  destruct (IH _ Hw') as (? & -> & ->). done.
Qed.

Lemma halted_cycles (w : World) : halted w → cycles w = 0%nat.
Proof.
  intros (_ & Ht & Hp). unfold cycles.
  rewrite (filter_none armed), (filter_none in_flight); [done| |].
  - apply Forall_forall. intros q Hq. rewrite forallb_forall in Hp.
    apply list_elem_of_In, Hp in Hq. by destruct (in_flight q).
  - apply Forall_forall. intros t' Ht'. rewrite forallb_forall in Ht.
    apply list_elem_of_In, Ht in Ht'. by destruct (armed t').
Qed.

Lemma failed_poll_halts (w : World) (n : nat) (f : Fetch) (c : nat) (e : thrown) :
  phase w →
  polls w !! n = Some (mkPoll f c None) →
  halted (step w (PollReply n (inl e))).
Proof.
  intros Hph Hn. cbn [step]. rewrite Hn.
  destruct Hph as [? ? Hp ?|ts d0 Hs Ht Hts Hps Hlen Hcell
                  |ts d0 ps f0 a Hs Ht Hts Hp Hps Ha Hlen Hcell].
  - by rewrite Hp in Hn.
  - eapply Forall_lookup_1 in Hps as [_ [messages Ha]]; [|done]. done.
  - rewrite Hp in Hn. apply in_flight_is_last in Hn as [-> [= <- <- ->]]; [|done].
    unfold halted. cbn. rewrite Hs, Ht, Hp.
    rewrite insert_app_r_alt, Nat.sub_diag by lia. cbn.
    rewrite !forallb_app. cbn. rewrite !andb_true_r.
    split; [done|]. split.
    + apply forallb_forall. intros t Hin.
      apply list_elem_of_In in Hin.
      eapply Forall_forall in Hts as [-> _]; done.
    + apply forallb_forall. intros q Hin.
      apply list_elem_of_In in Hin.
      eapply Forall_forall in Hps as [_ [messages Hq]]; [|done].
      unfold in_flight. by rewrite Hq.
Qed.

(** X13: when the request of a poll fails, the loop is over for good: no
    timer is set and no poll is made ever after, whatever happens later,
    a further [requestDevice] included, since [#pollerSchedule] keeps the
    handle of the last timer. *)
Theorem failed_poll_stops_loop (loc : Location) (inputs : list input) (n : nat) (f : Fetch) (c : nat)
        (e : thrown) (later : list input) :
  let w := run (constructor loc) inputs in
  polls w !! n = Some (mkPoll f c None) →
  let w' := step w (PollReply n (inl e)) in
  polls (run w' later) = polls w'
  ∧ timers (run w' later) = timers w'
  ∧ cycles (run w' later) = 0%nat.
Proof.
  intros w Hn w'.
  assert (halted w') as Hw'.
  { eapply failed_poll_halts; [|done]. apply (inv_phase loc), reachable_invariant. }
  destruct (halted_run later w' Hw') as (Hhalted & Ht & Hp).
  split; [done|]. split; [done|]. by apply halted_cycles.
Qed.

Lemma failed_poll_stops_loop_witness :
  let loc := mkLocation "https:" "localhost:1443" in
  let response : jobject :=
    {[ "connection_id" := JStr "c1"; "device_info" := JStr "phone" ]} in
  let inputs :=
    [CallRequestDevice (JStr "cvd-1"); Reply 0 (Json JNull);
     Reply 1 (Json (JObj response)); CallOnDeviceMsg (Listener 1); Timeout 0] in
  let w := run (constructor loc) inputs in
  let f := mkFetch "https://localhost:1443/polled_connections/c1/messages?start=0"
                   GET None in
  let later := [Timeout 0; CallRequestDevice (JStr "cvd-1");
                Reply 2 (Json (JObj response)); PollReply 0 (inr []); Timeout 1] in
  let w' := step w (PollReply 0 (inl (FetchError "Failed to fetch"))) in
  polls w !! 0%nat = Some (mkPoll f 0 None)
  ∧ polls (run w' later) = polls w'
  ∧ timers (run w' later) = timers w'
  ∧ cycles (run w' later) = 0%nat.
Proof.
  intros loc response inputs w f later w'.
  assert (polls w !! 0%nat = Some (mkPoll f 0 None)) as H1 by (vm_compute; reflexivity).
  exact (conj H1 (failed_poll_stops_loop loc inputs 0 f 0
                    (FetchError "Failed to fetch") later H1)).
Defined.

(** The registered function stays until [onDeviceMsg] is called again. *)
Lemma startPolling_callback (w : World) :
  onDeviceMsgCb (this (startPolling w)) = onDeviceMsgCb (this w).
Proof. unfold startPolling. by destruct (pollerSchedule (this w)). Qed.

Lemma polling_step_callback (w : World) (i : input) :
  onDeviceMsgCb (this (step w i)) =
    match i with CallOnDeviceMsg cb => cb | _ => onDeviceMsgCb (this w) end.
Proof.
  destruct i as [cb|deviceId|msg|handle|request r|n r]; cbn [step].
  - done.
  - unfold requestDevice, getConfig, new_promise. cbn [this set_promises].
    by destruct (is_undefined (config (this w))).
  - done.
  - by destruct (timers w !! handle) as [[d c [|]]|].
  - destruct (requests w !! request) as [[f k [a|]]|]; try done.
    destruct k as [deviceId p|cfg p|p], r as [e|v]; cbn [resume]; try done.
    unfold requestDevice_resume.
    destruct (prop_of v "connection_id"), (prop_of v "device_info"); try done.
    cbn. by rewrite startPolling_callback.
  - destruct (polls w !! n) as [[f c [a|]]|]; try done.
    destruct r as [e|messages]; [done|].
    unfold pollerRoutine_resume. by rewrite for_messages.
Qed.

Lemma polling_run_callback (inputs : list input) (w : World) :
  no_registration inputs = true →
  onDeviceMsgCb (this (run w inputs)) = onDeviceMsgCb (this w).
Proof.
  revert w. induction inputs as [|i inputs IH]; intros w H; [done|].
  cbn in H. apply andb_prop in H as [Hi H].
  cbn [run fold_left]. fold (run (step w i) inputs).
  rewrite (IH _ H), polling_step_callback. by destruct i.
Qed.

Lemma batch_effects_step (w : World) (n : nat) (f : Fetch) (c : nat)
                         (messages : list jobject) :
  polls w !! n = Some (mkPoll f c None) →
  effects (step w (PollReply n (inr messages))) =
    effects w ++ batch_effects (onDeviceMsgCb (this w)) messages.
Proof.
  intros Hn. cbn [step]. rewrite Hn.
  unfold pollerRoutine_resume. by rewrite for_messages.
Qed.

(** X15: [onDeviceMsg] stores the function it is given and changes nothing
    else, and when the array of a poll arrives its messages go in array
    order to the function given to the latest [onDeviceMsg], whatever
    happened since that call: one call per message with its payload.  If
    [onDeviceMsg] was never called each call logs an error and the message
    is dropped. *)
Theorem batch_goes_to_current_callback :
  (∀ (cb : callback) (w : World),
      onDeviceMsgCb (this (onDeviceMsg cb w)) = cb
      ∧ polls (onDeviceMsg cb w) = polls w
      ∧ effects (onDeviceMsg cb w) = effects w)
  ∧ (∀ (cb : callback) (w : World) (inputs : list input)
       (n : nat) (f : Fetch) (c : nat) (messages : list jobject),
      no_registration inputs = true →
      let w1 := run w (CallOnDeviceMsg cb :: inputs) in
      polls w1 !! n = Some (mkPoll f c None) →
      effects (step w1 (PollReply n (inr messages))) =
        effects w1 ++ batch_effects cb messages
      ∧ calls (effects (step w1 (PollReply n (inr messages)))) =
          calls (effects w1) ++ ((λ m, (cb, prop m "payload")) <$> messages))
  ∧ (∀ (loc : Location) (inputs : list input)
       (n : nat) (f : Fetch) (c : nat) (messages : list jobject),
      no_registration inputs = true →
      let w1 := run (constructor loc) inputs in
      polls w1 !! n = Some (mkPoll f c None) →
      effects (step w1 (PollReply n (inr messages))) =
        effects w1 ++ batch_effects NoListener messages
      ∧ calls (effects (step w1 (PollReply n (inr messages)))) =
          calls (effects w1) ++ ((λ m, (NoListener, prop m "payload")) <$> messages)).
Proof.
  split; [done|]. split.
  - intros cb w inputs n f c messages Hreg w1 Hn.
    rewrite (batch_effects_step _ _ _ _ _ Hn).
    assert (onDeviceMsgCb (this w1) = cb) as ->.
    { subst w1. cbn [run fold_left step]. fold (run (onDeviceMsg cb w) inputs).
      by rewrite (polling_run_callback inputs _ Hreg). }
    split; [done|]. rewrite calls_app. f_equal. apply calls_deliveries.
  - intros loc inputs n f c messages Hreg w1 Hn.
    rewrite (batch_effects_step _ _ _ _ _ Hn).
    assert (onDeviceMsgCb (this w1) = NoListener) as ->.
    { subst w1. by rewrite (polling_run_callback inputs _ Hreg). }
    split; [done|]. rewrite calls_app. f_equal. apply calls_deliveries.
Qed.

Lemma batch_goes_to_current_callback_witness :
  let loc := mkLocation "https:" "localhost:1443" in
  let response : jobject :=
    {[ "connection_id" := JStr "c1"; "device_info" := JStr "phone" ]} in
  let before := [CallOnDeviceMsg (Listener 1)] in
  let inputs :=
    [CallRequestDevice (JStr "cvd-1"); Reply 0 (Json JNull);
     Reply 1 (Json (JObj response)); Timeout 0] in
  let w1 := run (run (constructor loc) before) (CallOnDeviceMsg (Listener 2) :: inputs) in
  let f := mkFetch "https://localhost:1443/polled_connections/c1/messages?start=0"
                   GET None in
  let messages : list jobject :=
    [ {[ "payload" := JStr "offer" ]}; {[ "payload" := JStr "candidate" ]} ] in
  no_registration inputs = true
  ∧ polls w1 !! 0%nat = Some (mkPoll f 0 None)
  ∧ calls (effects (step w1 (PollReply 0 (inr messages)))) =
      calls (effects w1) ++
        [(Listener 2, JStr "offer"); (Listener 2, JStr "candidate")].
Proof.
  intros loc response before inputs w1 f messages.
  assert (no_registration inputs = true) as H0 by reflexivity.
  assert (polls w1 !! 0%nat = Some (mkPoll f 0 None)) as H1
    by (vm_compute; reflexivity).
  exact (conj H0 (conj H1 (proj2 (proj1 (proj2 batch_goes_to_current_callback)
           (Listener 2) (run (constructor loc) before) inputs 0%nat f 0%nat
           messages H0 H1)))).
Defined.

Lemma owned_new (rs : list Request) (ps : list promise_state) (f : Fetch)
      (k : awaiting) :
  promise_of k = length ps →
  owned_by rs ps →
  owned_by (rs ++ [mkRequest f k None]) (ps ++ [Pending]).
Proof.
  intros Hk Hown i r Hi Hr.
  apply lookup_app_Some in Hi as [Hi|[Hle Hi]].
  - destruct (Hown i r Hi Hr) as [Hp Huniq].
    pose proof (lookup_lt_Some _ _ _ Hp) as Hlt.
    split; [by apply lookup_app_l_Some|].
    intros j r' Hj Hr' Heq.
    apply lookup_app_Some in Hj as [Hj|[Hle Hj]]; [by eapply Huniq|].
    apply list_lookup_singleton_Some in Hj as [_ <-]. cbn in Heq. lia.
  - apply list_lookup_singleton_Some in Hi as [Hi <-]. cbn [caller].
    split; [by rewrite Hk, lookup_app_r, Nat.sub_diag|].
    intros j r' Hj Hr' Heq.
    apply lookup_app_Some in Hj as [Hj|[Hle' Hj]].
    + destruct (Hown j r' Hj Hr') as [Hp _].
      apply lookup_lt_Some in Hp. lia.
    + apply list_lookup_singleton_Some in Hj as [Hj _]. lia.
Qed.

Lemma lookup_answered (rs : list Request) (i j : nat) (f : Fetch) (k : awaiting)
      (r : reply) (r' : Request) :
  (<[i := mkRequest f k (Some r)]> rs) !! j = Some r' →
  response r' = None →
  j ≠ i ∧ rs !! j = Some r'.
Proof.
  intros Hj Hr'. destruct (decide (j = i)) as [->|Hne].
  - apply list_lookup_insert_Some in Hj as [(_ & <- & _)|[? _]]; done.
  - by rewrite list_lookup_insert_ne in Hj.
Qed.

Lemma owned_settle (rs : list Request) (ps : list promise_state) (i : nat)
      (f : Fetch) (k : awaiting) (r : reply) (s : promise_state) :
  rs !! i = Some (mkRequest f k None) →
  owned_by rs ps →
  owned_by (<[i := mkRequest f k (Some r)]> rs) (settle (promise_of k) s ps).
Proof.
  intros Hi Hown j r' Hj Hr'.
  apply lookup_answered in Hj as [Hne Hj]; [|done].
  destruct (Hown j r' Hj Hr') as [Hp Huniq]. split.
  - rewrite settle_lookup_ne; [done|]. intros Heq.
    apply Hne. symmetry. by apply (Huniq i (mkRequest f k None)).
  - intros j' r'' Hj' Hr'' Heq.
    apply lookup_answered in Hj' as [_ Hj']; [|done]. by eapply Huniq.
Qed.

Lemma owned_handover (rs : list Request) (ps : list promise_state) (i : nat)
      (f f' : Fetch) (k k' : awaiting) (r : reply) :
  rs !! i = Some (mkRequest f k None) →
  promise_of k' = promise_of k →
  owned_by rs ps →
  owned_by (<[i := mkRequest f k (Some r)]> rs ++ [mkRequest f' k' None]) ps.
Proof.
  intros Hi Hk Hown.
  destruct (Hown i _ Hi eq_refl) as [Hpi Huniqi]. cbn in Hpi, Huniqi.
  assert (∀ j r', (<[i := mkRequest f k (Some r)]> rs) !! j = Some r' →
                  response r' = None →
                  promise_of (caller r') ≠ promise_of k) as Hother.
  { intros j r' Hj Hr' Heq. apply lookup_answered in Hj as [Hne Hj]; [|done].
    apply Hne. by apply (Huniqi j r'). }
  intros j r' Hj Hr'.
  apply lookup_app_Some in Hj as [Hj|[Hle Hj]].
  - pose proof (Hother j r' Hj Hr') as Hnek.
    apply lookup_answered in Hj as [Hne Hj]; [|done].
    destruct (Hown j r' Hj Hr') as [Hp Huniq]. split; [done|].
    intros j' r'' Hj' Hr'' Heq.
    apply lookup_app_Some in Hj' as [Hj'|[Hle Hj']].
    + apply lookup_answered in Hj' as [_ Hj']; [|done]. by eapply Huniq.
    + apply list_lookup_singleton_Some in Hj' as [_ <-]. cbn in Heq. congruence.
  - apply list_lookup_singleton_Some in Hj as [Hj <-]. cbn [caller].
    rewrite Hk. split; [done|].
    intros j' r'' Hj' Hr'' Heq.
    apply lookup_app_Some in Hj' as [Hj'|[Hle' Hj']].
    + by destruct (Hother j' r'' Hj' Hr'').
    + apply list_lookup_singleton_Some in Hj' as [Hj' _]. lia.
Qed.

Lemma owned_step (w : World) (i : input) : owned w → owned (step w i).
Proof.
  unfold owned. intros Hown.
  destruct i as [cb|deviceId|msg|handle|request r|n r]; cbn [step].
  - done.
  - unfold requestDevice, getConfig, new_promise. cbn [this set_promises].
    destruct (is_undefined (config (this w))); cbn; by apply owned_new.
  - cbn. by apply owned_new.
  - by destruct (timers w !! handle) as [[d c [|]]|].
  - destruct (requests w !! request) as [[f k [a|]]|] eqn:Hr; try done.
    destruct k as [deviceId p|cfg p|p], r as [e|v]; cbn [resume].
    + by apply (owned_settle _ _ _ _ (in_getConfig deviceId p)).
    + cbn. by apply (owned_handover _ _ _ _ _ (in_getConfig deviceId p)).
    + by apply (owned_settle _ _ _ _ (in_requestDevice cfg p)).
    + unfold requestDevice_resume.
      destruct (prop_of v "connection_id") as [j|],
               (prop_of v "device_info") as [device_info|];
        try (by apply (owned_settle _ _ _ _ (in_requestDevice cfg p))).
      unfold settle_promise. cbn [requests promises set_promises].
      destruct (startPolling_keeps
                  (set_this
                     (set_urls
                        (httpUrl (location w)
                           ("polled_connections/" +:+ to_string j +:+ "/:forward"))
                        (httpUrl (location w)
                           ("polled_connections/" +:+ to_string j +:+ "/messages"))
                        (this w))
                     (set_requests
                        (<[request := mkRequest f (in_requestDevice cfg p)
                                        (Some (Json v))]> (requests w)) w)))
        as (Hreq & Hprom & _).
      cbn in Hreq, Hprom |- *. rewrite Hreq, Hprom.
      by apply (owned_settle _ _ _ _ (in_requestDevice cfg p)).
    + by apply (owned_settle _ _ _ _ (in_sendToDevice p)).
    + by apply (owned_settle _ _ _ _ (in_sendToDevice p)).
  - destruct (polls w !! n) as [[f c [a|]]|]; try done.
    destruct r as [e|messages]; [done|].
    unfold pollerRoutine_resume. by rewrite for_messages.
Qed.

Lemma owned_run (inputs : list input) (w : World) : owned w → owned (run w inputs).
Proof.
  revert w. induction inputs as [|i inputs IH]; intros w Hw; [done|].
  by apply IH, owned_step.
Qed.

Lemma owned_constructor (loc : Location) : owned (constructor loc).
Proof. by intros i r Hi. Qed.

(** X9: in every run of the polling connector the promise of a request in
    flight is pending and no other request in flight settles it.  So the
    promise of a [sendToDevice] is fulfilled with the decoded answer to its
    own POST, or rejected with the failure of that POST, in whatever order
    answers arrive. *)
Theorem reply_settles_its_own_promise (loc : Location) (inputs : list input) :
  let w := run (constructor loc) inputs in
  owned w
  ∧ ∀ (i : nat) (f : Fetch) (p : nat),
      requests w !! i = Some (mkRequest f (in_sendToDevice p) None) →
      promises w !! p = Some Pending
      ∧ (∀ v, promises (step w (Reply i (Json v))) !! p = Some (Fulfilled v))
      ∧ (∀ e, promises (step w (Reply i (Failed e))) !! p = Some (Rejected e)).
Proof.
  intros w.
  pose proof (owned_run inputs _ (owned_constructor loc)) as Hown. fold w in Hown.
  split; [done|]. intros i f p Hi.
  destruct (Hown i _ Hi eq_refl) as [Hp _]. cbn in Hp.
  split; [done|]. split; intros x; cbn [step]; rewrite Hi; cbn;
    by apply settle_pending.
Qed.

Lemma reply_settles_its_own_promise_witness :
  let loc := mkLocation "https:" "localhost:1443" in
  let response : jobject :=
    {[ "connection_id" := JStr "c1"; "device_info" := JStr "phone" ]} in
  let inputs :=
    [CallRequestDevice (JStr "cvd-1"); Reply 0 (Json JNull);
     Reply 1 (Json (JObj response));
     CallSendToDevice (JStr "offer"); CallSendToDevice (JStr "candidate");
     Reply 3 (Json (JStr "second"))] in
  let w := run (constructor loc) inputs in
  let f := mkFetch "https://localhost:1443/polled_connections/c1/:forward" POST
                   (Some {[ "payload" := JStr "offer" ]}) in
  requests w !! 2%nat = Some (mkRequest f (in_sendToDevice 1) None)
  ∧ promises w !! 1%nat = Some Pending
  ∧ promises (step w (Reply 2 (Json (JStr "first")))) !! 1%nat =
      Some (Fulfilled (JStr "first")).
Proof.
  intros loc response inputs w f.
  assert (requests w !! 2%nat = Some (mkRequest f (in_sendToDevice 1) None))
    as H1 by (vm_compute; reflexivity).
  pose proof (proj2 (reply_settles_its_own_promise loc inputs) 2%nat f 1%nat H1)
    as H.
  exact (conj H1 (conj (proj1 H) (proj1 (proj2 H) (JStr "first")))).
Defined.


Lemma well_formed_answered (loc : Location) (f : Fetch) (k : awaiting)
      (a a' : option reply) :
  well_formed loc (mkRequest f k a) → well_formed loc (mkRequest f k a').
Proof. done. Qed.

Lemma endpoints_frame (loc : Location) (w w' : World) :
  endpoints loc w →
  location w' = location w →
  configUrl (this w') = configUrl (this w) →
  connectUrl (this w') = connectUrl (this w) →
  forwardUrl (this w') = forwardUrl (this w) →
  Forall (well_formed loc) (requests w') →
  endpoints loc w'.
Proof.
  intros [Hl Hc Hn Hf Hr] El Ec En Ef Er.
  split; [congruence..| |done]. by rewrite Ef.
Qed.

Lemma endpoints_step (loc : Location) (w : World) (i : input) :
  endpoints loc w → endpoints loc (step w i).
Proof.
  intros Hep. pose proof Hep as [Hl Hc Hn Hf Hr].
  destruct i as [cb|deviceId|msg|handle|request r|n r]; cbn [step].
  - by eapply endpoints_frame.
  - unfold requestDevice, getConfig, new_promise. cbn [this set_promises].
    destruct (is_undefined (config (this w)));
      (eapply endpoints_frame; [done..|]); cbn;
      (apply Forall_app; split; [done|]);
      (apply Forall_cons; split; [|by apply Forall_nil]).
    + unfold well_formed. cbn. by rewrite Hc.
    + unfold well_formed. cbn. rewrite Hn. by eexists.
  - eapply endpoints_frame; [done..|]. cbn.
    apply Forall_app; split; [done|].
    apply Forall_cons; split; [|by apply Forall_nil].
    unfold well_formed. cbn. exists msg, (url_string (forwardUrl (this w))).
    split; [done|].
    destruct Hf as [->|[connId ->]]; [by left|right; by exists connId].
  - destruct (timers w !! handle) as [[d c [|]]|]; [|done..].
    by eapply endpoints_frame.
  - destruct (requests w !! request) as [[f k [a|]]|] eqn:Hreq; [done| |done].
    assert (Forall (well_formed loc)
              (<[request := mkRequest f k (Some r)]> (requests w))) as Hins.
    { apply Forall_insert; [done|].
      eapply Forall_lookup_1 in Hreq; [|exact Hr].
      by eapply well_formed_answered. }
    destruct k as [deviceId p|cfg p|p], r as [e|v]; cbn [resume];
      try (by eapply endpoints_frame).
    + eapply endpoints_frame; [done..|]. cbn.
      apply Forall_app; split; [done|].
      apply Forall_cons; split; [|by apply Forall_nil].
      unfold well_formed. cbn. rewrite Hn. by eexists.
    + unfold requestDevice_resume.
      destruct (prop_of v "connection_id") as [connId|],
               (prop_of v "device_info") as [device_info|];
        try (by eapply endpoints_frame).
      unfold settle_promise.
      match goal with
      | |- endpoints _ (set_promises _ (startPolling ?w0)) =>
          destruct (startPolling_keeps w0)
            as (Hreq' & _ & _ & _ & _ & Hfw & Hloc & Hcu & Hnu)
      end.
      split; cbn [location this requests set_promises].
      * by rewrite Hloc.
      * by rewrite Hcu.
      * by rewrite Hnu.
      * rewrite Hfw. cbn. right. rewrite Hl. by eexists.
      * by rewrite Hreq'.
  - destruct (polls w !! n) as [[f c [a|]]|]; try done.
    destruct r as [e|messages]; [by eapply endpoints_frame|].
    unfold pollerRoutine_resume. rewrite for_messages.
    by eapply endpoints_frame.
Qed.

Lemma endpoints_run (loc : Location) (inputs : list input) (w : World) :
  endpoints loc w → endpoints loc (run w inputs).
Proof.
  revert w. induction inputs as [|i inputs IH]; intros w Hw; [done|].
  by apply IH, endpoints_step.
Qed.

Lemma endpoints_constructor (loc : Location) : endpoints loc (constructor loc).
Proof. split; try done. by left. Qed.

(** X14: apart from the polls, every request the polling connector makes is
    a GET of [infra_config], a POST of [{device_id}] to
    [polled_connections], or a POST of [{payload}] to the URL of
    [sendToDevice]: the forward endpoint of some connection id, or
    "undefined" before there is one. *)
Theorem requests_go_to_known_endpoints (loc : Location) (inputs : list input) (i : nat) (r : Request) :
  requests (run (constructor loc) inputs) !! i = Some r →
  well_formed loc r.
Proof.
  intros Hi.
  eapply Forall_lookup_1; [|done].
  apply ep_requests, endpoints_run, endpoints_constructor.
Qed.

Lemma requests_go_to_known_endpoints_witness :
  let loc := mkLocation "https:" "localhost:1443" in
  let response : jobject :=
    {[ "connection_id" := JStr "c1"; "device_info" := JStr "phone" ]} in
  let inputs :=
    [CallSendToDevice (JStr "early"); CallRequestDevice (JStr "cvd-1");
     Reply 1 (Json JNull); Reply 2 (Json (JObj response));
     CallSendToDevice (JStr "offer")] in
  let w := run (constructor loc) inputs in
  let r := mkRequest
             (mkFetch "https://localhost:1443/polled_connections/c1/:forward" POST
                      (Some {[ "payload" := JStr "offer" ]}))
             (in_sendToDevice 2) None in
  requests w !! 3%nat = Some r ∧ well_formed loc r.
Proof.
  intros loc response inputs w r.
  assert (requests w !! 3%nat = Some r) as H1 by (vm_compute; reflexivity).
  exact (conj H1 (requests_go_to_known_endpoints loc inputs 3 r H1)).
Defined.


Lemma polling_step_settled (w : World) (i : input) (p : nat) (st : promise_state) :
  promises w !! p = Some st → st ≠ Pending →
  promises (step w i) !! p = Some st.
Proof.
  intros Hp Hst.
  destruct i as [cb|deviceId|msg|handle|request r|n r]; cbn [step].
  - done.
  - unfold requestDevice, getConfig, new_promise. cbn [this set_promises].
    destruct (is_undefined (config (this w))); cbn; by apply lookup_app_l_Some.
  - cbn. by apply lookup_app_l_Some.
  - by destruct (timers w !! handle) as [[d c [|]]|].
  - destruct (requests w !! request) as [[f k [a|]]|]; [done| |done].
    destruct k as [deviceId q|cfg q|q], r as [e|v]; cbn [resume];
      try (by apply settle_lookup_settled); [done|].
    unfold requestDevice_resume.
    destruct (prop_of v "connection_id") as [connId|],
             (prop_of v "device_info") as [device_info|];
      try (by apply settle_lookup_settled).
    unfold settle_promise. cbn [promises set_promises].
    rewrite (proj1 (proj2 (startPolling_keeps _))).
    by apply settle_lookup_settled.
  - destruct (polls w !! n) as [[f c [a|]]|]; [done| |done].
    destruct r as [e|messages]; [done|].
    unfold pollerRoutine_resume. by rewrite for_messages.
Qed.

Lemma polling_run_settled (inputs : list input) (w : World) (p : nat)
      (st : promise_state) :
  promises w !! p = Some st → st ≠ Pending →
  promises (run w inputs) !! p = Some st.
Proof.
  revert w. induction inputs as [|i inputs IH]; intros w Hp Hst; [done|].
  cbn [run fold_left]. fold (run (step w i) inputs).
  apply IH; [|done]. by apply polling_step_settled.
Qed.

(** X8: a failed request (the GET of the configuration, the connect POST or
    a forward POST) rejects the promise of the call that made it with the
    error and does nothing else: no field of the connector changes, so no
    URL is set, no further request is made and the loop is not started. *)
Theorem failed_request_rejects_its_call (loc : Location) (inputs : list input) (i : nat) (f : Fetch)
        (k : awaiting) (e : thrown) :
  let w := run (constructor loc) inputs in
  requests w !! i = Some (mkRequest f k None) →
  let w' := step w (Reply i (Failed e)) in
  promises w' !! promise_of k = Some (Rejected e)
  ∧ this w' = this w
  ∧ timers w' = timers w
  ∧ polls w' = polls w
  ∧ effects w' = effects w
  ∧ requests w' = <[i := mkRequest f k (Some (Failed e))]> (requests w).
Proof.
  intros w Hi w'. subst w'.
  destruct (owned_run inputs _ (owned_constructor loc) i _ Hi eq_refl) as [Hp _].
  cbn in Hp. fold w in Hp.
  cbn [step]. rewrite Hi.
  destruct k as [deviceId p|cfg p|p]; cbn; (split; [by apply settle_pending|done]).
Qed.

Lemma failed_request_rejects_its_call_witness :
  let loc := mkLocation "https:" "localhost:1443" in
  let inputs := [CallRequestDevice (JStr "cvd-1")] in
  let w := run (constructor loc) inputs in
  let f := mkFetch "https://localhost:1443/infra_config" GET None in
  let k := in_getConfig (JStr "cvd-1") 0 in
  let e := FetchError "Failed to fetch" in
  requests w !! 0%nat = Some (mkRequest f k None)
  ∧ promises (step w (Reply 0 (Failed e))) !! 0%nat = Some (Rejected e)
  ∧ this (step w (Reply 0 (Failed e))) = this w
  ∧ timers (step w (Reply 0 (Failed e))) = timers w.
Proof.
  intros loc inputs w f k e.
  assert (requests w !! 0%nat = Some (mkRequest f k None)) as H1 by (vm_compute; reflexivity).
  pose proof (failed_request_rejects_its_call loc inputs 0 f k e H1) as H.
  exact (conj H1 (conj (proj1 H) (conj (proj1 (proj2 H))
                                       (proj1 (proj2 (proj2 H)))))).
Defined.



(** X17: when the connect endpoint answers [null], reading
    [response.connection_id] throws, so the promise of [requestDevice] is
    rejected with a [TypeError]; no URL is set and the loop is not
    started. *)
Theorem null_connect_reply_rejects (loc : Location) (inputs : list input) (i : nat)
        (f : Fetch) (cfg : json) (p : nat) :
  let w := run (constructor loc) inputs in
  requests w !! i = Some (mkRequest f (in_requestDevice cfg p) None) →
  let w' := step w (Reply i (Json JNull)) in
  promises w' !! p = Some (Rejected (TypeError "Cannot read properties of null"))
  ∧ this w' = this w
  ∧ timers w' = timers w
  ∧ polls w' = polls w.
Proof.
  intros w Hi w'. subst w'.
  destruct (owned_run inputs _ (owned_constructor loc) i _ Hi eq_refl) as [Hp _].
  cbn in Hp. fold w in Hp.
  cbn [step]. rewrite Hi. cbn. split; [by apply settle_pending|done].
Qed.

Lemma null_connect_reply_rejects_witness :
  let loc := mkLocation "https:" "localhost:1443" in
  let inputs := [CallRequestDevice (JStr "cvd-1"); Reply 0 (Json JNull)] in
  let w := run (constructor loc) inputs in
  let f := mkFetch "https://localhost:1443/polled_connections" POST
                   (Some {[ "device_id" := JStr "cvd-1" ]}) in
  let w' := step w (Reply 1 (Json JNull)) in
  requests w !! 1%nat = Some (mkRequest f (in_requestDevice JNull 0) None)
  ∧ promises w' !! 0%nat =
      Some (Rejected (TypeError "Cannot read properties of null"))
  ∧ this w' = this w
  ∧ timers w' = timers w
  ∧ polls w' = polls w.
Proof.
  intros loc inputs w f w'.
  assert (requests w !! 1%nat = Some (mkRequest f (in_requestDevice JNull 0) None))
    as H1 by (vm_compute; reflexivity).
  exact (conj H1 (null_connect_reply_rejects loc inputs 1 f JNull 0 H1)).
Defined.

End polling_runs.

(** * The choice of the connector *)

Section negotiation.
Import Negotiator.

Lemma settled_handshake_step (w : World) (e : socket_event) :
  connectWs w ≠ Connecting → step w e = w.
Proof. intros Hw. unfold step. by destruct (connectWs w), e. Qed.

Lemma settled_handshake_run (events : list socket_event) (w : World) :
  connectWs w ≠ Connecting → run w events = w.
Proof.
  induction events as [|e events IH]; intros Hw; [done|].
  cbn [run fold_left]. rewrite settled_handshake_step by done. by apply IH.
Qed.

(** X16: [createConnector] never fails.  The first event of the socket
    decides: after [onopen] it returns a websocket connector and logs the
    URL; after [onerror] it logs the error and a warning and returns a
    polling connector.  Later events of the socket change nothing. *)
Theorem createConnector_first_event_decides (loc : Location) :
  returned (createConnector loc) = None
  ∧ (∀ events : list socket_event,
      run (createConnector loc) (onopen :: events) =
        mkWorld loc (websocketUrl loc "connect_client") Opened
                (Some (Websocket WebsocketConnector.constructor))
                [ConsoleDebug
                   [JStr ("Connected to " +:+ websocketUrl loc "connect_client")]])
  ∧ (∀ (evt : json) (events : list socket_event),
      run (createConnector loc) (onerror evt :: events) =
        mkWorld loc (websocketUrl loc "connect_client") (Errored evt)
                (Some (Polling (PollingConnector.constructor loc)))
                [ConsoleErr [JStr "WebSocket error:"; evt];
                 ConsoleWarn
                   [JStr "Failed to connect websocket, trying polling instead"]])
  ∧ (∀ events : list socket_event,
      events ≠ [] → returned (run (createConnector loc) events) ≠ None).
Proof.
  assert (∀ events, run (createConnector loc) (onopen :: events) =
            mkWorld loc (websocketUrl loc "connect_client") Opened
              (Some (Websocket WebsocketConnector.constructor))
              [ConsoleDebug
                 [JStr ("Connected to " +:+ websocketUrl loc "connect_client")]])
    as Hopen.
  { intros events. cbn [run fold_left]. by apply settled_handshake_run. }
  assert (∀ evt events, run (createConnector loc) (onerror evt :: events) =
            mkWorld loc (websocketUrl loc "connect_client") (Errored evt)
              (Some (Polling (PollingConnector.constructor loc)))
              [ConsoleErr [JStr "WebSocket error:"; evt];
               ConsoleWarn
                 [JStr "Failed to connect websocket, trying polling instead"]])
    as Herror.
  { intros evt events. cbn [run fold_left]. by apply settled_handshake_run. }
  split; [done|]. split; [done|]. split; [done|].
  intros [|[|evt] events] Hne; [done| |].
  - by rewrite Hopen.
  - by rewrite Herror.
Qed.

Lemma createConnector_first_event_decides_witness :
  let loc := mkLocation "https:" "localhost:1443" in
  let events := [onerror JNull; onopen] in
  events ≠ [] ∧ returned (run (createConnector loc) events) ≠ None.
Proof.
  intros loc events.
  assert (events ≠ []) as H1 by discriminate.
  exact (conj H1 (proj2 (proj2 (proj2 (createConnector_first_event_decides loc)))
                    events H1)).
Defined.

End negotiation.

(** * Settled promises *)

Section settled_promises.

(** X5: in both connectors a promise that has been fulfilled or rejected
    keeps its state in every continuation of the run: an error message after
    'device_info' does not reject a resolved [requestDevice], and a
    'device_info' after an error does not resolve a rejected one. *)
Theorem settled_promise_is_final (p : nat) (st : promise_state) :
  st ≠ Pending →
  (∀ (w : WebsocketConnector.World) (inputs : list WebsocketConnector.input),
      WebsocketConnector.promises w !! p = Some st →
      WebsocketConnector.promises (WebsocketConnector.run w inputs) !! p = Some st)
  ∧ (∀ (w : PollingConnector.World) (inputs : list PollingConnector.input),
      PollingConnector.promises w !! p = Some st →
      PollingConnector.promises (PollingConnector.run w inputs) !! p = Some st).
Proof.
  intros Hst. split; intros w inputs Hp.
  - by apply websocket_run_settled.
  - by apply polling_run_settled.
Qed.

Lemma settled_promise_is_final_witness :
  let info : jobject :=
    {[ "message_type" := JStr "device_info"; "device_info" := JStr "phone" ]} in
  let failure : jobject := {[ "error" := JStr "gone" ]} in
  let resolved :=
    Fulfilled (JObj {[ "deviceInfo" := JStr "phone"; "infraConfig" := JUndefined ]}) in
  let w := WebsocketConnector.run WebsocketConnector.constructor
             [WebsocketConnector.CallRequestDevice (JStr "cvd-1");
              WebsocketConnector.Message info] in
  let v := PollingConnector.run
             (PollingConnector.constructor (mkLocation "https:" "localhost:1443"))
             [PollingConnector.CallRequestDevice (JStr "cvd-1");
              PollingConnector.Reply 0
                (PollingConnector.Failed (Value (JStr "gone")))] in
  let late := [PollingConnector.Reply 0 (PollingConnector.Json JNull)] in
  (resolved ≠ Pending
   ∧ WebsocketConnector.promises w !! 0%nat = Some resolved
   ∧ WebsocketConnector.promises
       (WebsocketConnector.run w [WebsocketConnector.Message failure]) !! 0%nat =
     Some resolved)
  ∧ (Rejected (Value (JStr "gone")) ≠ Pending
     ∧ PollingConnector.promises v !! 0%nat = Some (Rejected (Value (JStr "gone")))
     ∧ PollingConnector.promises (PollingConnector.run v late) !! 0%nat =
       Some (Rejected (Value (JStr "gone")))).
Proof.
  intros info failure resolved w v late.
  assert (resolved ≠ Pending) as H1 by discriminate.
  assert (WebsocketConnector.promises w !! 0%nat = Some resolved) as H2
    by (vm_compute; reflexivity).
  assert (Rejected (Value (JStr "gone")) ≠ Pending) as H3 by discriminate.
  assert (PollingConnector.promises v !! 0%nat =
            Some (Rejected (Value (JStr "gone")))) as H4
    by (vm_compute; reflexivity).
  split.
  - exact (conj H1 (conj H2
             (proj1 (settled_promise_is_final 0 resolved H1) w
                [WebsocketConnector.Message failure] H2))).
  - exact (conj H3 (conj H4
             (proj2 (settled_promise_is_final 0 _ H3) v late H4))).
Defined.

End settled_promises.
